(** * BTC-Brute-Force-Recovery: the hash database, the combination
      enumerator, the checkpoint store, the search loop and the start-up
      code.

    A shallow embedding of [hash_database.js] (class [HashOnlyBTCDB]) and
    of [main.js] (class [SeedPermutationRecovery]), with the properties of
    the specification stated over it.

    Conventions.
    - A JavaScript [BigInt] is a [Z]; a JavaScript number that holds an
      array index or a counter is a [Z] as well (every value met here is
      an integer below 2^53, where doubles are exact).  The one place
      where a [BigInt] is converted to a double, [Number(this.hashCount)],
      is modelled with its rounding ([Number_of_BigInt]).
    - A [Buffer] is a [list byte]; an array is a [list]; array reads are
      stdpp lookups ([l !! i], [None] standing for [undefined]).
    - A JavaScript string is a [string]: a sequence of code units, each
      below 256.
    - [console] output is a list of messages returned next to the result.
    - A [try { ... } catch] is an [option]/[outcome] threaded by hand. *)

From Stdlib Require Import ZArith Lia List Bool String Ascii Sorted.
From Stdlib Require Import Strings.Byte DecimalString.
From stdpp Require Import base list.

Local Open Scope Z_scope.

(* ===================================================================== *)
(** * hash_database.js                                                    *)
(* ===================================================================== *)

Module HashDB.

(** Messages written by [console.log], [console.error], [console.warn]. *)
Inductive msg : Type :=
  | LogLoading
  | ErrTooSmall
  | ErrInvalidMagic (magic : string)
  | LogHashCount (count : Z)
  | ErrInvalidHashSize (hashSize : Z)
  | ErrInsufficientData (actual expected : Z)
  | LogLoaded (n : nat)
  | LogFirstHash (h : Z)
  | LogLastHash (h : Z)
  | WarnNotSorted
  | ErrLoading.

(** The two fields of the class. [hashes = None] is [this.hashes = null]. *)
Record HashOnlyBTCDB : Type := mkDB {
  hashes : option (list Z);
  hashCount : Z
}.

(** [constructor()] *)
Definition new_db : HashOnlyBTCDB := mkDB None 0.

(** ** Buffer primitives (Node's [Buffer]) *)

Definition byte_val (b : byte) : Z := Z.of_N (Byte.to_N b).

(** Little-endian value of a list of bytes. *)
Fixpoint le_value (bs : list byte) : Z :=
  match bs with
  | [] => 0
  | b :: bs' => byte_val b + 256 * le_value bs'
  end.

(** [buffer.readBigUInt64LE(offset)]: throws a [RangeError] ([None]) unless
    the eight bytes lie inside the buffer. *)
Definition readBigUInt64LE (buffer : list byte) (offset : nat) : option Z :=
  if (offset + 8 <=? length buffer)%nat
  then Some (le_value (take 8 (drop offset buffer)))
  else None.

(** [buffer.toString('ascii', start, end)].  Node's ['ascii'] decoder
    unsets the highest bit of every byte before decoding it (Node.js
    documentation, Buffers and character encodings). *)
Definition ascii_char (b : byte) : ascii :=
  ascii_of_N (N.land (Byte.to_N b) 127).

Definition toString_ascii (buffer : list byte) (start stop : nat) : string :=
  string_of_list_ascii (map ascii_char (take (stop - start) (drop start buffer))).

(** [Number(z)] for a non-negative [BigInt]: the integer value of the
    nearest double, ties to even (53 bits of mantissa). *)
Definition Number_of_BigInt (z : Z) : Z :=
  if z <? 2 ^ 53 then z
  else
    let e := Z.log2 z - 52 in
    let q := Z.shiftr z e in
    let r := Z.land z (Z.ones e) in
    let half := 2 ^ (e - 1) in
    let q' := if r <? half then q
              else if half <? r then q + 1
              else if Z.even q then q else q + 1 in
    q' * 2 ^ e.

(** ** [verifyOrdering] *)

(** The body of the [for] loop, [n] iterations left, starting at index [i].
    A comparison with [undefined] is false, so the loop goes on. *)
Fixpoint verifyOrdering_loop (hs : list Z) (i n : nat) : bool :=
  match n with
  | O => true
  | S n' =>
      match hs !! i, hs !! (i - 1)%nat with
      | Some a, Some b =>
          if a <=? b then false else verifyOrdering_loop hs (S i) n'
      | _, _ => verifyOrdering_loop hs (S i) n'
      end
  end.

Definition sample_limit : nat := 1000.

(** [for (let i = 1; i < Math.min(1000, this.hashes.length); i++)] *)
Definition verifyOrdering (hs : list Z) : bool :=
  verifyOrdering_loop hs 1 (Nat.min sample_limit (length hs) - 1).

(** ** [loadDatabase] *)

(** The loop that fills [this.hashes]: [n] reads of eight bytes from
    [offset] on, each pushed in turn.  A failed read throws: the result is
    the array as pushed so far and [false]. *)
Fixpoint read_hashes (buffer : list byte) (offset n : nat) : list Z * bool :=
  match n with
  | O => ([], true)
  | S n' =>
      match readBigUInt64LE buffer offset with
      | None => ([], false)
      | Some h =>
          let '(rest, ok) := read_hashes buffer (offset + 8) n' in
          (h :: rest, ok)
      end
  end.

Definition hashDataStart : nat := 24.

(** [loadDatabase(filename)].  [file] is what [fs.readFileSync] gives:
    [None] when it throws (no such file).  The result is the returned
    boolean, the object afterwards and the console output. *)
Definition loadDatabase (file : option (list byte)) (db : HashOnlyBTCDB)
  : bool * HashOnlyBTCDB * list msg :=
  match file with
  | None => (false, db, [LogLoading; ErrLoading])
  | Some buffer =>
      if (length buffer <? 24)%nat then
        (false, db, [LogLoading; ErrTooSmall])
      else
        let magic := toString_ascii buffer 0 8 in
        if negb (String.eqb magic "BTCHASH1") then
          (false, db, [LogLoading; ErrInvalidMagic magic])
        else
          match readBigUInt64LE buffer 8, readBigUInt64LE buffer 16 with
          | Some count, Some hashSize =>
              let db1 := mkDB (hashes db) count in
              if negb (hashSize =? 8) then
                (false, db1,
                 [LogLoading; LogHashCount count; ErrInvalidHashSize hashSize])
              else
                let expectedDataSize := Number_of_BigInt count * 8 in
                let actualDataSize :=
                  Z.of_nat (length buffer) - Z.of_nat hashDataStart in
                if actualDataSize <? expectedDataSize then
                  (false, db1,
                   [LogLoading; LogHashCount count;
                    ErrInsufficientData actualDataSize expectedDataSize])
                else
                  match read_hashes buffer hashDataStart
                          (Z.to_nat (Number_of_BigInt count)) with
                  | (partial, false) =>
                      (* a read threw inside the loop *)
                      (false, mkDB (Some partial) count,
                       [LogLoading; LogHashCount count; ErrLoading])
                  | (hs, true) =>
                      let db2 := mkDB (Some hs) count in
                      match hs !! 0%nat, last hs with
                      | Some first, Some lst =>
                          let pre := [LogLoading; LogHashCount count;
                                      LogLoaded (length hs);
                                      LogFirstHash first; LogLastHash lst] in
                          if negb (verifyOrdering hs)
                          then (true, db2, pre ++ [WarnNotSorted])
                          else (true, db2, pre)
                      | _, _ =>
                          (* [this.hashes[0].toString(16)] on an empty
                             array is a TypeError, caught by the handler *)
                          (false, db2,
                           [LogLoading; LogHashCount count;
                            LogLoaded (length hs); ErrLoading])
                      end
                  end
          | _, _ => (false, db, [LogLoading; ErrLoading])
          end
  end.

(** ** [xxhash64] *)

Definition mask64 : Z := 0xFFFFFFFFFFFFFFFF.

(** One round of the loop body, [code] being [str.charCodeAt(i)]. *)
Definition xxhash64_round (h code : Z) : Z :=
  let h1 := Z.lxor h code in
  let h2 := Z.land (Z.lor (Z.shiftl h1 13) (Z.shiftr h1 51)) mask64 in
  Z.land (h2 * 0xc2b2ae3d27d4eb4f) mask64.

Definition charCode (c : ascii) : Z := Z.of_N (N_of_ascii c).

Definition xxhash64 (str : string) : Z :=
  fold_left xxhash64_round (map charCode (list_ascii_of_string str))
            0x9e3779b185ebca87.

(** ** [binarySearch] *)

(** The [while (left <= right)] loop; [fuel] bounds the iterations and
    [None] means it ran out.  A read outside the array gives [undefined],
    for which both [===] and [<] are false. *)
Fixpoint binarySearch_loop (fuel : nat) (hs : list Z) (targetHash : Z)
    (left right : Z) : option bool :=
  match fuel with
  | O => None
  | S fuel' =>
      if left <=? right then
        let mid := (left + right) / 2 in
        match hs !! Z.to_nat mid with
        | Some midHash =>
            if midHash =? targetHash then Some true
            else if midHash <? targetHash
                 then binarySearch_loop fuel' hs targetHash (mid + 1) right
                 else binarySearch_loop fuel' hs targetHash left (mid - 1)
        | None => binarySearch_loop fuel' hs targetHash left (mid - 1)
        end
      else Some false
  end.

Definition binarySearch (hs : list Z) (targetHash : Z) : option bool :=
  binarySearch_loop (S (length hs)) hs targetHash
                    0 (Z.of_nat (length hs) - 1).

(** ** [hasAddress] *)

Definition hasAddress (db : HashOnlyBTCDB) (address : string) : option bool :=
  match hashes db with
  | None => Some false
  | Some [] => Some false
  | Some hs => binarySearch hs (xxhash64 address)
  end.

End HashDB.

(* ===================================================================== *)
(** * main.js                                                             *)
(* ===================================================================== *)

Module Recovery.
Import HashDB.

(** ** Data *)

(** One element pushed by [checkSeedPhrase]: [{ index, address, path }]. *)
Record foundAddress : Type := mkFound {
  index : nat;
  address : string;
  path : string
}.

(** A slot of a JavaScript array of such objects: an empty slot (as
    [new Array(12)] creates), [null] (what [JSON.stringify] writes for an
    empty slot and [JSON.parse] reads back), or an object. *)
Inductive slot : Type :=
  | Empty
  | Null
  | Item (a : foundAddress).

(** One element of [this.foundSeeds]: [{ seedPhrase, foundAddresses,
    filename }]. *)
Record foundSeed : Type := mkSeed {
  seedPhrase : string;
  foundAddresses : list slot;
  filename : string
}.

(** Console output of the search and of the checkpoint store. *)
Inductive event : Type :=
  | EvSeedFound (seed : string) (count : nat)
  | EvCheckpointSaved
  | EvCheckpointSaveError
  | EvCheckpointFound (indices : list Z) (checked : Z) (seeds : nat)
  | EvNoValidIndices
  | EvNoCheckpoint
  | EvCheckpointLoadError
  | EvResuming (indices : list Z)
  | EvStartFirst
  | EvCompleted (checked : Z) (seeds : nat).

(** The fields of [SeedPermutationRecovery] that the search reads or
    writes (the display and timing fields are left out), and the console. *)
Record SeedPermutationRecovery : Type := mkRecovery {
  database : HashOnlyBTCDB;
  wordlist : list string;
  checkedCombinations : Z;
  sessionCombinations : Z;
  foundSeeds : list foundSeed;
  currentIndices : option (list Z);
  console : list event
}.

(** [constructor()], with the database and word list as [initialize]
    leaves them. *)
Definition new_recovery (db : HashOnlyBTCDB) (wl : list string)
  : SeedPermutationRecovery :=
  mkRecovery db wl 0 0 [] None [].

(** The parsed content of [recovery_checkpoint.json]; an absent or [null]
    property is [None]. *)
Record checkpoint : Type := mkCheckpoint {
  ck_indices : option (list Z);
  ck_checkedCombinations : option Z;
  ck_foundSeeds : option (list foundSeed);
  ck_timestamp : option string;
  ck_elapsedTime : option string
}.

(** What [loadCheckpoint] finds on disk. *)
Inductive checkpoint_file : Type :=
  | NoFile
  | Unparsable
  | Json (c : checkpoint).

(** ** [nextCombination] *)

(** [let i = 11; while (i >= 0 && indices[i] === 2036 + i) i--;] run from
    [i = n - 1]: [None] is [i < 0]. *)
Fixpoint find_pos (indices : list Z) (n : nat) : option nat :=
  match n with
  | O => None
  | S i =>
      match indices !! i with
      | Some v => if v =? 2036 + Z.of_nat i then find_pos indices i else Some i
      | None => Some i
      end
  end.

(** The [switch (11 - i)] with its fall-through, entered at [case m]:
    [indices[i+m] = val + m; ...; indices[i+1] = val + 1]. *)
Fixpoint fill (indices : list Z) (i : nat) (val : Z) (m : nat) : list Z :=
  match m with
  | O => indices
  | S m' =>
      fill (<[(i + m)%nat := val + Z.of_nat m]> indices) i val m'
  end.

(** [nextCombination(indices)]: the returned boolean and the array after
    the call.  [++indices[i]] on a missing element gives [NaN], which is
    outside this model of arrays of integers: [None]. Every store the
    function makes is inside the array (lemma [nextCombination_defined]). *)
Definition nextCombination (indices : list Z) : option (bool * list Z) :=
  match find_pos indices 12 with
  | None => Some (false, indices)
  | Some i =>
      match indices !! i with
      | None => None
      | Some v =>
          let val := v + 1 in
          Some (true, fill (<[i := val]> indices) i val (11 - i))
      end
  end.

(** ** [generateCombination] *)

(** [wl[indices[j]]], as [join] prints it: [undefined] is the empty
    string. *)
Definition word_at (wl : list string) (indices : list Z) (j : nat) : string :=
  match indices !! j with
  | Some z => if 0 <=? z then default EmptyString (wl !! Z.to_nat z)
              else EmptyString
  | None => EmptyString
  end.

Definition join_space (ws : list string) : string :=
  match ws with
  | [] => EmptyString
  | w :: ws' => fold_left (fun acc x => (acc ++ " " ++ x)%string) ws' w
  end.

Definition generateCombination (wl : list string) (indices : list Z) : string :=
  join_space (map (word_at wl indices) (seq 0 12)).

(** ** The checkpoint store *)

(** [JSON.parse(JSON.stringify(x))] on a slot: an empty slot is written
    as [null]. *)
Definition json_slot (s : slot) : slot :=
  match s with
  | Empty => Null
  | Null => Null
  | Item a => Item a
  end.

Definition json_seed (s : foundSeed) : foundSeed :=
  mkSeed (seedPhrase s) (map json_slot (foundAddresses s)) (filename s).

Section Clock.

(** [new Date().toISOString()] and [this.getElapsedTime()], as read by
    one call. *)
Variables (timestamp elapsedTime : string).

(** The object that [saveCheckpoint] serialises. *)
Definition checkpoint_of (st : SeedPermutationRecovery) : checkpoint :=
  mkCheckpoint (currentIndices st)
               (Some (checkedCombinations st))
               (Some (map json_seed (foundSeeds st)))
               (Some timestamp) (Some elapsedTime).

(** [saveCheckpoint()]: [write_ok] tells whether [fs.writeFileSync]
    succeeds; the result is the file afterwards and the object. *)
Definition saveCheckpoint (write_ok : bool) (file : checkpoint_file)
    (st : SeedPermutationRecovery) : checkpoint_file * SeedPermutationRecovery :=
  if write_ok
  then (Json (checkpoint_of st),
        mkRecovery (database st) (wordlist st) (checkedCombinations st)
          (sessionCombinations st) (foundSeeds st) (currentIndices st)
          (console st ++ [EvCheckpointSaved]))
  else (file,
        mkRecovery (database st) (wordlist st) (checkedCombinations st)
          (sessionCombinations st) (foundSeeds st) (currentIndices st)
          (console st ++ [EvCheckpointSaveError])).

End Clock.

Definition log (st : SeedPermutationRecovery) (e : event)
  : SeedPermutationRecovery :=
  mkRecovery (database st) (wordlist st) (checkedCombinations st)
    (sessionCombinations st) (foundSeeds st) (currentIndices st)
    (console st ++ [e]).

(** [x || 0] on a number that may be missing. *)
Definition or_zero (x : option Z) : Z :=
  match x with
  | Some z => z
  | None => 0
  end.

(** [loadCheckpoint()] *)
Definition loadCheckpoint (file : checkpoint_file)
    (st : SeedPermutationRecovery) : SeedPermutationRecovery :=
  match file with
  | NoFile => log st EvNoCheckpoint
  | Unparsable => log st EvCheckpointLoadError
  | Json c =>
      match ck_indices c with
      | Some indices =>
          let checked := or_zero (ck_checkedCombinations c) in
          let seeds := default [] (ck_foundSeeds c) in
          mkRecovery (database st) (wordlist st) checked
            (sessionCombinations st) seeds (Some indices)
            (console st ++ [EvCheckpointFound indices checked (length seeds)])
      | None => log st EvNoValidIndices
      end
  end.

(** ** The external derivation library (bip39, bip32, bitcoinjs-lib) *)

(** The result of a call that may throw. *)
Inductive outcome (A : Type) : Type :=
  | Ok (a : A)
  | Throw.
Arguments Ok {A} a.
Arguments Throw {A}.

Section Search.

(** [Account] is the HD node [m/44'/0'/0'/0]. [deriveAccount] stands for
    [mnemonicToSeedSync], [fromSeed] and the four derivations;
    [deriveAddress account i] for [account.derive(i)] followed by
    [payments.p2pkh]. [stamp] is the time stamp that [saveSeedPhrase] puts
    in the file name; [now] and [elapsed] are the clock readings of
    [saveCheckpoint]. *)
Variable Account : Type.
Variable validateMnemonic : string -> outcome bool.
Variable deriveAccount : string -> outcome Account.
Variable deriveAddress : Account -> nat -> outcome string.
Variables (stamp now elapsed : string).

(** The [for] loop of [generateAddresses]: [n] addresses from index [i]. *)
Fixpoint derive_loop (account : Account) (i n : nat) : outcome (list string) :=
  match n with
  | O => Ok []
  | S n' =>
      match deriveAddress account i with
      | Throw => Throw
      | Ok a =>
          match derive_loop account (S i) n' with
          | Throw => Throw
          | Ok rest => Ok (a :: rest)
          end
      end
  end.

(** [generateAddresses(seedPhrase, count = 20)]: every exception ends in
    [catch (error) { return []; }]. *)
Definition generateAddresses (seedPhrase : string) (count : nat) : list string :=
  match validateMnemonic seedPhrase with
  | Throw => []
  | Ok false => []
  | Ok true =>
      match deriveAccount seedPhrase with
      | Throw => []
      | Ok account =>
          match derive_loop account 0 count with
          | Throw => []
          | Ok addresses => addresses
          end
      end
  end.

Definition decimal (n : nat) : string :=
  DecimalString.NilZero.string_of_uint (Nat.to_uint n).

Definition path_of (i : nat) : string :=
  ("m/44'/0'/0'/0/" ++ decimal i)%string.

(** The [for] loop of [checkSeedPhrase] from index [i] on. *)
Fixpoint check_loop (db : HashOnlyBTCDB) (addresses : list string) (i : nat)
    (found_list : list slot) (found : bool) : list slot * bool :=
  match addresses with
  | [] => (found_list, found)
  | a :: rest =>
      match hasAddress db a with
      | Some true =>
          check_loop db rest (S i)
            (found_list ++ [Item (mkFound i a (path_of i))]) true
      | _ => check_loop db rest (S i) found_list found
      end
  end.

(** [checkSeedPhrase(seedPhrase)]: [foundAddresses] starts as
    [new Array(12)], twelve empty slots, and [push] appends after them. *)
Definition checkSeedPhrase (db : HashOnlyBTCDB) (seed : string)
  : list slot * bool :=
  check_loop db (generateAddresses seed 20) 0 (replicate 12 Empty) false.

(** The name returned by [saveSeedPhrase]. *)
Definition saveSeedPhrase_name : string :=
  ("found_seed_" ++ stamp ++ ".txt")%string.

(** One pass through the body of the [do ... while], up to the line
    [if (attempts % 1000 === 0)]. *)
Definition iteration (st : SeedPermutationRecovery) (indices : list Z)
  : SeedPermutationRecovery :=
  let checked := checkedCombinations st + 1 in
  let session := sessionCombinations st + 1 in
  let seed := generateCombination (wordlist st) indices in
  let '(found_list, found) := checkSeedPhrase (database st) seed in
  if found then
    mkRecovery (database st) (wordlist st) checked session
      (foundSeeds st ++ [mkSeed seed found_list saveSeedPhrase_name])
      (Some indices)
      (console st ++ [EvSeedFound seed (length found_list)])
  else
    mkRecovery (database st) (wordlist st) checked session
      (foundSeeds st) (Some indices) (console st).

(** How a run of the loop ends. *)
Inductive stop : Type :=
  | Exhausted
  | Interrupted.

(** The outcome of a run: the object, the local [indices], how it ended
    and, as instrumentation, the index vectors handed to [iteration] in
    order. *)
Record run : Type := mkRun {
  final : SeedPermutationRecovery;
  last_indices : list Z;
  reason : stop;
  tested : list (list Z)
}.

(** The [do { ... } while (this.nextCombination(indices))] loop.
    The loop yields to the event loop when [attempts % 1000 === 0], and
    only there can the [SIGINT] handler run: [sigint attempts] tells
    whether it does at that yield.  [fuel] bounds the iterations; [None]
    is a run that used it up (or left the integer model). *)
Fixpoint do_while (fuel : nat) (sigint : Z -> bool)
    (st : SeedPermutationRecovery) (indices : list Z) (attempts : Z)
  : option run :=
  match fuel with
  | O => None
  | S fuel' =>
      let attempts' := attempts + 1 in
      let st' := iteration st indices in
      if (attempts' mod 1000 =? 0) && sigint attempts' then
        Some (mkRun st' indices Interrupted [indices])
      else
        match nextCombination indices with
        | None => None
        | Some (false, indices') =>
            Some (mkRun st' indices' Exhausted [indices])
        | Some (true, indices') =>
            match do_while fuel' sigint st' indices' attempts' with
            | None => None
            | Some r =>
                Some (mkRun (final r) (last_indices r) (reason r)
                            (indices :: tested r))
            end
        end
  end.

Definition first_combination : list Z := map Z.of_nat (seq 0 12).

Definition set_currentIndices (st : SeedPermutationRecovery)
    (indices : list Z) : SeedPermutationRecovery :=
  mkRecovery (database st) (wordlist st) (checkedCombinations st)
    (sessionCombinations st) (foundSeeds st) (Some indices) (console st).

(** [startPermutationSearch()] together with the [SIGINT] handler: the
    checkpoint file when the process ends, and the run.  A run that ends
    by exhaustion saves in [finally]; an interrupted one saves in the
    handler, which then exits. Writes succeed. *)
Definition startPermutationSearch (fuel : nat) (sigint : Z -> bool)
    (file : checkpoint_file) (st : SeedPermutationRecovery)
  : option (checkpoint_file * run) :=
  let '(indices, st0) :=
    match currentIndices st with
    | Some saved => (saved, log st (EvResuming saved))
    | None => (first_combination, log st EvStartFirst)
    end in
  match do_while fuel sigint st0 indices 0 with
  | None => None
  | Some r =>
      match reason r with
      | Interrupted =>
          let '(file', st1) := saveCheckpoint now elapsed true file (final r) in
          Some (file', mkRun st1 (last_indices r) Interrupted (tested r))
      | Exhausted =>
          let st1 := set_currentIndices (final r) (last_indices r) in
          let '(file', st2) := saveCheckpoint now elapsed true file st1 in
          let st3 := log st2 (EvCompleted (checkedCombinations st2)
                                          (length (foundSeeds st2))) in
          Some (file', mkRun st3 (last_indices r) Exhausted (tested r))
      end
  end.

(** One process: [initialize] (database and word list already loaded)
    reads the checkpoint into a new object, then the search runs. *)
Definition main (fuel : nat) (sigint : Z -> bool) (db : HashOnlyBTCDB)
    (wl : list string) (file : checkpoint_file)
  : option (checkpoint_file * run) :=
  startPermutationSearch fuel sigint file
    (loadCheckpoint file (new_recovery db wl)).

(** [startPermutationSearch()] and the [SIGINT] handler once more, with
    the outcome of the last [fs.writeFileSync] left open: [write_ok] tells
    whether it succeeds.  With [true] this is [startPermutationSearch]. *)
Definition startPermutationSearch_writing (write_ok : bool) (fuel : nat)
    (sigint : Z -> bool) (file : checkpoint_file)
    (st : SeedPermutationRecovery) : option (checkpoint_file * run) :=
  let '(indices, st0) :=
    match currentIndices st with
    | Some saved => (saved, log st (EvResuming saved))
    | None => (first_combination, log st EvStartFirst)
    end in
  match do_while fuel sigint st0 indices 0 with
  | None => None
  | Some r =>
      match reason r with
      | Interrupted =>
          let '(file', st1) :=
            saveCheckpoint now elapsed write_ok file (final r) in
          Some (file', mkRun st1 (last_indices r) Interrupted (tested r))
      | Exhausted =>
          let st1 := set_currentIndices (final r) (last_indices r) in
          let '(file', st2) := saveCheckpoint now elapsed write_ok file st1 in
          let st3 := log st2 (EvCompleted (checkedCombinations st2)
                                          (length (foundSeeds st2))) in
          Some (file', mkRun st3 (last_indices r) Exhausted (tested r))
      end
  end.

Definition main_writing (write_ok : bool) (fuel : nat) (sigint : Z -> bool)
    (db : HashOnlyBTCDB) (wl : list string) (file : checkpoint_file)
  : option (checkpoint_file * run) :=
  startPermutationSearch_writing write_ok fuel sigint file
    (loadCheckpoint file (new_recovery db wl)).

End Search.

(** ** [loadWordlist] *)

(** White space as [String.prototype.trim] sees it, among the code units
    below 256: tab, line feed, vertical tab, form feed, carriage return,
    space and no-break space. *)
Definition is_whitespace (c : ascii) : bool :=
  let n := nat_of_ascii c in
  ((9 <=? n) && (n <=? 13) || (n =? 32) || (n =? 160))%nat.

(** The white space at the front removed. *)
Fixpoint drop_whitespace (l : list ascii) : list ascii :=
  match l with
  | [] => []
  | c :: l' => if is_whitespace c then drop_whitespace l' else l
  end.

(** [w.trim()] *)
Definition trim (w : string) : string :=
  string_of_list_ascii
    (rev (drop_whitespace (rev (drop_whitespace (list_ascii_of_string w))))).

(** [content.split(sep)] for a one-character separator. *)
Fixpoint split (sep : ascii) (content : string) : list string :=
  match content with
  | EmptyString => [EmptyString]
  | String c rest =>
      if Ascii.eqb c sep then EmptyString :: split sep rest
      else match split sep rest with
           | w :: ws => String c w :: ws
           | [] => [String c EmptyString]
           end
  end.

(** The line feed, U+000A. *)
Definition newline : ascii := "010"%char.

(** [w && w.length > 0] *)
Definition nonempty (w : string) : bool :=
  match w with
  | EmptyString => false
  | String _ _ => true
  end.

(** [loadWordlist()]: [file] is the text of [list_ph_shuffled.txt], [None]
    when the file does not exist or cannot be read; the result is
    [this.wordlist], [None] when the process exits. *)
Definition loadWordlist (file : option string) : option (list string) :=
  match file with
  | None => None
  | Some content => Some (List.filter nonempty (map trim (split newline content)))
  end.

(** ** [getElapsedTime], [getSessionTime] *)

(** An integer as a template literal prints it. *)
Definition number_text (z : Z) : string :=
  DecimalString.NilZero.string_of_int (Z.to_int z).

(** The body shared by the two functions, from [elapsed], the difference
    of two readings of [Date.now()] in milliseconds. *)
Definition elapsed_text (elapsed : Z) : string :=
  let seconds := elapsed / 1000 in
  let minutes := seconds / 60 in
  let hours := minutes / 60 in
  if 0 <? hours then
    (number_text hours ++ "h " ++ number_text (Z.rem minutes 60) ++ "m "
     ++ number_text (Z.rem seconds 60) ++ "s")%string
  else if 0 <? minutes then
    (number_text (Z.rem minutes 60) ++ "m "
     ++ number_text (Z.rem seconds 60) ++ "s")%string
  else (number_text seconds ++ "s")%string.

(** [getElapsedTime()], [now] being [Date.now()]. *)
Definition getElapsedTime (now startTime : Z) : string :=
  elapsed_text (now - startTime).

(** [getSessionTime()] *)
Definition getSessionTime (now sessionStartTime : Z) : string :=
  elapsed_text (now - sessionStartTime).

(** ** [initialize] *)

(** How [initialize] ends: the object is ready, or [loadDatabase] failed
    and ['Cannot load database!'] is thrown, or the process exits in
    [loadWordlist] or [calculateTotalCombinations]. *)
Inductive startup : Type :=
  | Started (st : SeedPermutationRecovery)
  | CannotLoadDatabase
  | Exited.

(** [initialize()], on a new object: the three files are the database,
    the word list and the checkpoint.  The estimate that
    [calculateTotalCombinations] prints is a floating-point number used
    for display only and is left out; its test [n >= 12] is kept. *)
Definition initialize (dbfile : option (list byte)) (wordfile : option string)
    (ckfile : checkpoint_file) : startup :=
  let '(ok, db, _) := loadDatabase dbfile new_db in
  if negb ok then CannotLoadDatabase
  else
    match loadWordlist wordfile with
    | None => Exited
    | Some wl =>
        if (length wl <? 12)%nat then Exited
        else Started (loadCheckpoint ckfile (new_recovery db wl))
    end.

End Recovery.

(* ===================================================================== *)
(** * Definitions used by the statements                                  *)
(* ===================================================================== *)

Import HashDB Recovery.

(** The array is strictly ascending. *)
Definition ascending (hs : list Z) : Prop :=
  forall (i j : nat) (a b : Z),
    hs !! i = Some a -> hs !! j = Some b -> (i < j)%nat -> a < b.

(** The same, as a test on neighbours. *)
Fixpoint ascendingb (hs : list Z) : bool :=
  match hs with
  | a :: (b :: _) as tl => (a <? b) && ascendingb tl
  | _ => true
  end.

(** ** Database files for the examples *)

Definition byte_of_Z (z : Z) : byte :=
  default x00 (Byte.of_N (Z.to_N z)).

(** [n] bytes of [z], least significant first. *)
Fixpoint le_bytes (n : nat) (z : Z) : list byte :=
  match n with
  | O => []
  | S n' => byte_of_Z (z mod 256) :: le_bytes n' (z / 256)
  end.

Definition magic_bytes : list byte := list_byte_of_string "BTCHASH1".

(** A file with the given first eight bytes, count, width and data. *)
Definition db_file (magic : list byte) (count width : Z) (hs : list Z)
  : list byte :=
  magic ++ le_bytes 8 count ++ le_bytes 8 width ++ concat (map (le_bytes 8) hs).

Definition sample_hashes : list Z := [10; 20; 30; 40].

Definition sample_file : list byte := db_file magic_bytes 4 8 sample_hashes.

(** The first byte is ["B"] with its highest bit set (0xC2). *)
Definition high_bit_magic : list byte := xc2 :: tail magic_bytes.

Definition high_bit_magic_file : list byte :=
  db_file high_bit_magic 4 8 sample_hashes.

Definition wrong_magic_file : list byte :=
  db_file (list_byte_of_string "BTCHASH2") 4 8 sample_hashes.

Definition wrong_width_file : list byte := db_file magic_bytes 4 4 sample_hashes.

Definition truncated_file : list byte := db_file magic_bytes 5 8 sample_hashes.

(** 1001 hashes: 1, 2, ..., 1000 and then 0, so that the only descent is
    between the elements of index 999 and 1000. *)
Definition unsorted_tail : list Z := map Z.of_nat (seq 1 1000) ++ [0].

Definition unsorted_tail_file : list byte :=
  db_file magic_bytes 1001 8 unsorted_tail.

(** 1000 hashes: 1, 2, ..., 999 and then 0: the descent is between the
    elements of index 998 and 999. *)
Definition unsorted_head : list Z := map Z.of_nat (seq 1 999) ++ [0].

Definition unsorted_head_file : list byte :=
  db_file magic_bytes 1000 8 unsorted_head.

(** ** Combination states *)

(** A valid state for [n = 2048], [k = 12]: twelve strictly increasing
    indices, the one at position [i] between 0 and [2036 + i]. *)
Definition valid (s : list Z) : Prop :=
  length s = 12%nat /\
  ascending s /\
  (forall (i : nat) (a : Z), s !! i = Some a -> 0 <= a <= 2036 + Z.of_nat i).

(** Lexicographic order on index vectors, leftmost position first. *)
Fixpoint lex_lt (a b : list Z) : Prop :=
  match a, b with
  | x :: a', y :: b' => x < y \/ (x = y /\ lex_lt a' b')
  | [], _ :: _ => True
  | _, [] => False
  end.

(** The element at position [j], 0 outside the array. *)
Definition at_pos (s : list Z) (j : nat) : Z := default 0 (s !! j).

Definition last_combination : list Z := map (fun i => 2036 + Z.of_nat i) (seq 0 12).

(** The test of [valid]. *)
Fixpoint in_rangeb (s : list Z) (i : nat) : bool :=
  match s with
  | [] => true
  | a :: s' => (0 <=? a) && (a <=? 2036 + Z.of_nat i) && in_rangeb s' (S i)
  end.

Definition validb (s : list Z) : bool :=
  (length s =? 12)%nat && ascendingb s && in_rangeb s 0.

(** ** A word list, a database and a derivation library for the examples *)

(** 2048 distinct words: w0, w1, ..., w2047. *)
Definition ex_words : list string :=
  map (fun i => ("w" ++ decimal i)%string) (seq 0 2048).

(** The database holds the fingerprints of two addresses. *)
Definition ex_db : HashOnlyBTCDB :=
  let a := xxhash64 "addr3" in
  let b := xxhash64 "addr7" in
  mkDB (Some (if a <? b then [a; b] else [b; a])) 2.

(** A library that accepts one phrase only and derives the addresses
    addr0, addr1, ... from it. *)
Definition ex_validate (target seed : string) : outcome bool :=
  Ok (String.eqb seed target).

Definition ex_account (seed : string) : outcome unit := Ok tt.

Definition ex_address (account : unit) (i : nat) : outcome string :=
  Ok ("addr" ++ decimal i)%string.

(** A library whose derivation always throws. *)
Definition throwing_account (seed : string) : outcome unit := Throw.

(** A library for which no phrase is valid. *)
Definition rejecting_validate (seed : string) : outcome bool := Ok false.

(** [n] successors of a state. *)
Fixpoint advance (n : nat) (s : list Z) : list Z :=
  match n with
  | O => s
  | S n' =>
      match nextCombination s with
      | Some (true, s') => advance n' s'
      | _ => s
      end
  end.

(** The first of the 6188 states whose indices are all at least 2031,
    and the 1000th of them. *)
Definition near_end : list Z := map (fun i => 2031 + Z.of_nat i) (seq 0 12).

Definition ex_hit : list Z := advance 999 near_end.

Definition ex_target : string := generateCombination ex_words ex_hit.

(** A checkpoint file that starts the search at [near_end], with 5000
    combinations counted so far. *)
Definition ex_checkpoint : checkpoint :=
  mkCheckpoint (Some near_end) (Some 5000) (Some []) None None.

(** No [SIGINT]; a [SIGINT] handled at the first yield. *)
Definition never (attempts : Z) : bool := false.

Definition at_first_yield (attempts : Z) : bool := attempts =? 1000.

(** One process with the example library. *)
Abbreviation ex_main sigint file :=
  (main unit (ex_validate ex_target) ex_account ex_address
        "2024-01-15T10-30-45-123Z" "2024-01-15T10:30:45.123Z" "0s"
        (Z.to_nat 7000) sigint ex_db ex_words file).

(** The search run to exhaustion in one process. *)
Definition uninterrupted : option (checkpoint_file * run) :=
  ex_main never (Json ex_checkpoint).

(** The same search interrupted at the first yield ... *)
Definition first_session : option (checkpoint_file * run) :=
  ex_main at_first_yield (Json ex_checkpoint).

(** ... and resumed by a second process from the file the first left. *)
Definition second_session : option (checkpoint_file * run) :=
  match first_session with
  | Some (file, _) => ex_main never file
  | None => None
  end.

(** What a run reports: how it ended, the total tested and the number of
    found records. *)
Definition summary (x : option (checkpoint_file * run))
  : option (stop * Z * nat) :=
  match x with
  | Some (_, r) =>
      Some (reason r, checkedCombinations (final r),
            length (foundSeeds (final r)))
  | None => None
  end.

Definition tested_of (x : option (checkpoint_file * run)) : list (list Z) :=
  match x with
  | Some (_, r) => tested r
  | None => []
  end.

Definition found_of (x : option (checkpoint_file * run)) : list foundSeed :=
  match x with
  | Some (_, r) => foundSeeds (final r)
  | None => []
  end.

(** The object right after the iteration that tests [ex_hit], a hit. *)
Definition ex_hit_state : SeedPermutationRecovery :=
  iteration unit (ex_validate ex_target) ex_account ex_address
    "2024-01-15T10-30-45-123Z" (new_recovery ex_db ex_words) ex_hit.

(** A checkpoint whose indices descend. *)
Definition descending : list Z := map (fun i => 11 - Z.of_nat i) (seq 0 12).

Definition descending_checkpoint : checkpoint :=
  mkCheckpoint (Some descending) (Some 5000) (Some []) None None.

(** The entries that [checkSeedPhrase] is to record: one per address that
    the database holds, with its position, in order. *)
Fixpoint matches (db : HashOnlyBTCDB) (addresses : list string) (i : nat)
  : list foundAddress :=
  match addresses with
  | [] => []
  | a :: rest =>
      match hasAddress db a with
      | Some true => mkFound i a (path_of i) :: matches db rest (S i)
      | _ => matches db rest (S i)
      end
  end.

(** The derivation of the addresses of [seed] throws somewhere. *)
Definition derivation_throws {Account : Type}
    (validateMnemonic : string -> outcome bool)
    (deriveAccount : string -> outcome Account)
    (deriveAddress : Account -> nat -> outcome string)
    (seed : string) : Prop :=
  validateMnemonic seed = Throw \/
  (validateMnemonic seed = Ok true /\
   (deriveAccount seed = Throw \/
    exists account : Account,
      deriveAccount seed = Ok account /\
      derive_loop Account deriveAddress account 0 20 = Throw)).

(** The library that answers "not a valid phrase" wherever the given one
    would throw, and never throws itself during validation. *)
Definition silenced {Account : Type}
    (validateMnemonic : string -> outcome bool)
    (deriveAccount : string -> outcome Account)
    (deriveAddress : Account -> nat -> outcome string)
    (seed : string) : outcome bool :=
  match validateMnemonic seed with
  | Ok true =>
      match deriveAccount seed with
      | Ok account =>
          match derive_loop Account deriveAddress account 0 20 with
          | Ok _ => Ok true
          | Throw => Ok false
          end
      | Throw => Ok false
      end
  | _ => Ok false
  end.

(** ** 64-bit values *)

Definition u64 (z : Z) : Prop := 0 <= z < 2 ^ 64.

(** Rotation of a 64-bit value to the left by 13 bits. *)
Definition rotl13 (h : Z) : Z := (h mod 2 ^ 51) * 2 ^ 13 + h / 2 ^ 51.

(** ** Runs *)

(** Each element is followed by the state [nextCombination] makes of it. *)
Fixpoint successors (l : list (list Z)) : Prop :=
  match l with
  | a :: (b :: _) as tl => nextCombination a = Some (true, b) /\ successors tl
  | _ => True
  end.


(** The file, if it holds indices, holds a valid state. *)
Definition resumable (file : checkpoint_file) : Prop :=
  match file with
  | Json c =>
      match ck_indices c with
      | Some indices => valid indices
      | None => True
      end
  | _ => True
  end.

(** The objects held by an array of slots, in order. *)
Fixpoint items (slots : list slot) : list foundAddress :=
  match slots with
  | [] => []
  | Item a :: rest => a :: items rest
  | _ :: rest => items rest
  end.

(** ** Phrases *)

Definition space : ascii := " "%char.

Definition space_free (w : string) : Prop :=
  ~ In space (list_ascii_of_string w).

(** The text that [join] puts after the first word. *)
Fixpoint tail_text (ws : list string) : string :=
  match ws with
  | [] => EmptyString
  | x :: ws' => String space (x ++ tail_text ws')
  end.


(** ** More files for the examples *)

(** A well-formed database with no hash. *)
Definition empty_file : list byte := db_file magic_bytes 0 8 [].

(** An array that is not sorted. *)
Definition unsorted_hashes : list Z := [30; 10; 20].

(** A word list file with blank lines and stray blanks. *)
Definition words_text : string :=
  "abandon
  ability  
able

about
above
absent
absorb
abstract
absurd
abuse
access
accident
".

(** Tests for the word list of the examples. *)
Fixpoint distinctb (l : list string) : bool :=
  match l with
  | [] => true
  | x :: l' => negb (existsb (String.eqb x) l') && distinctb l'
  end.

Definition space_freeb (w : string) : bool :=
  negb (existsb (Ascii.eqb space) (list_ascii_of_string w)).

(* ===================================================================== *)
(** * Properties of the hash database                                     *)
(* ===================================================================== *)

Section BinarySearch.

Variables (hs : list Z) (target : Z).
Hypothesis Hasc : ascending hs.

(** While the window [left..right] holds every index at which [target]
    occurs, and the fuel exceeds the width of the window, the loop
    answers whether [target] occurs. *)
Lemma binarySearch_loop_window (fuel : nat) :
  forall left right : Z,
    0 <= left -> right < Z.of_nat (length hs) ->
    Z.max 0 (right - left + 1) < Z.of_nat fuel ->
    (forall k : nat, hs !! k = Some target -> left <= Z.of_nat k <= right) ->
    exists b : bool,
      binarySearch_loop fuel hs target left right = Some b /\
      (b = true <-> In target hs).
Proof.
  induction fuel as [|fuel IH]; intros left right Hl Hr Hfuel Hwin.
  - lia.
  - cbn [binarySearch_loop].
    destruct (Z.leb_spec left right) as [Hle|Hgt].
    + set (mid := (left + right) / 2).
      assert (Hmid : left <= mid <= right).
      { subst mid. split.
        - apply Z.div_le_lower_bound; lia.
        - apply Z.div_le_upper_bound; lia. }
      destruct (hs !! Z.to_nat mid) as [midHash|] eqn:Hlook.
      2:{ apply lookup_ge_None in Hlook. lia. }
      destruct (Z.eqb_spec midHash target) as [->|Hne].
      * exists true. split; [reflexivity|]. split; [intros _|reflexivity].
        apply list_elem_of_In. eapply list_elem_of_lookup_2. exact Hlook.
      * destruct (Z.ltb_spec midHash target) as [Hlt|Hge].
        -- apply IH; try lia.
           intros k Hk. specialize (Hwin k Hk).
           destruct (Nat.lt_ge_cases (Z.to_nat mid) k) as [Hc|Hc]; [lia|].
           exfalso.
           destruct (Nat.eq_dec k (Z.to_nat mid)) as [->|Hd].
           { rewrite Hlook in Hk. congruence. }
           assert (target < midHash) by (eapply (Hasc k (Z.to_nat mid)); eauto; lia).
           lia.
        -- apply IH; try lia.
           intros k Hk. specialize (Hwin k Hk).
           destruct (Nat.lt_ge_cases k (Z.to_nat mid)) as [Hc|Hc]; [lia|].
           exfalso.
           destruct (Nat.eq_dec k (Z.to_nat mid)) as [->|Hd].
           { rewrite Hlook in Hk. congruence. }
           assert (midHash < target) by (eapply (Hasc (Z.to_nat mid) k); eauto; lia).
           lia.
    + exists false. split; [reflexivity|]. split; [discriminate|].
      intros Hin. apply list_elem_of_In, list_elem_of_lookup_1 in Hin.
      destruct Hin as [k Hk]. specialize (Hwin k Hk). lia.
Qed.

Lemma binarySearch_decides :
  exists b : bool, binarySearch hs target = Some b /\ (b = true <-> In target hs).
Proof.
  unfold binarySearch. apply binarySearch_loop_window; try lia.
  intros k Hk. apply lookup_lt_Some in Hk. lia.
Qed.

End BinarySearch.

Lemma ascending_cons (a : Z) (tl : list Z) :
  ascending tl -> (forall b, In b tl -> a < b) -> ascending (a :: tl).
Proof.
  intros Htl Ha i j x y Hi Hj Hij.
  destruct j as [|j]; [lia|]. cbn in Hj.
  destruct i as [|i]; cbn in Hi.
  - injection Hi as <-. apply Ha.
    apply list_elem_of_In. eapply list_elem_of_lookup_2; eauto.
  - eapply Htl; eauto. lia.
Qed.

Lemma ascendingb_sound (hs : list Z) : ascendingb hs = true -> ascending hs.
Proof.
  induction hs as [|a tl IH]; intros H.
  - intros i j x y Hi. destruct i; discriminate.
  - destruct tl as [|b tl'].
    + intros i j x y Hi Hj Hij. destruct j as [|j]; [lia|].
      cbn in Hj. destruct j; discriminate.
    + cbn [ascendingb] in H. apply andb_true_iff in H as [Hab Htl].
      apply Z.ltb_lt in Hab. specialize (IH Htl).
      apply ascending_cons; [exact IH|].
      intros c [<-|Hc]; [exact Hab|].
      apply list_elem_of_In, list_elem_of_lookup_1 in Hc as [k Hk].
      assert (b < c); [|lia].
      apply (IH 0%nat (S k) b c); [reflexivity|exact Hk|lia].
Qed.

(** C3: on a strictly ascending array, the search answers [true] exactly
    when some element equals the fingerprint and [false] exactly when none
    does, and so does [hasAddress] for the fingerprint of its argument. *)
Theorem binarySearch_membership (hs : list Z) (f : Z) :
  ascending hs ->
  (binarySearch hs f = Some true <-> In f hs) /\
  (binarySearch hs f = Some false <-> ~ In f hs) /\
  (forall (db : HashOnlyBTCDB) (a : string),
      hashes db = Some hs -> xxhash64 a = f ->
      (hasAddress db a = Some true <-> In f hs) /\
      (hasAddress db a = Some false <-> ~ In f hs)).
Proof.
  intros Hasc.
  destruct (binarySearch_decides hs f Hasc) as [b [Hb Hiff]].
  assert (H1 : binarySearch hs f = Some true <-> In f hs).
  { rewrite Hb. split.
    - intros [= ->]. now apply Hiff.
    - intros Hin. f_equal. now apply Hiff. }
  assert (H2 : binarySearch hs f = Some false <-> ~ In f hs).
  { rewrite Hb. split.
    - intros [= ->] Hin. apply Hiff in Hin. discriminate.
    - intros Hn. destruct b; [|reflexivity]. exfalso. apply Hn. now apply Hiff. }
  split; [exact H1|]. split; [exact H2|].
  intros db a Hdb Hf. unfold hasAddress. rewrite Hdb, Hf.
  destruct hs as [|h hs']; [|split; assumption].
  split; split; try discriminate; try reflexivity; cbn; tauto.
Qed.

Lemma binarySearch_membership_witness :
  ascending sample_hashes /\
  binarySearch sample_hashes 10 = Some true /\
  binarySearch sample_hashes 40 = Some true /\
  binarySearch sample_hashes 5 = Some false /\
  binarySearch sample_hashes 25 = Some false /\
  binarySearch sample_hashes 45 = Some false.
Proof.
  assert (Hasc : ascending sample_hashes) by (apply ascendingb_sound; reflexivity).
  refine (conj Hasc (conj _ (conj _ (conj _ (conj _ _))))).
  - apply (binarySearch_membership sample_hashes 10 Hasc). cbn. tauto.
  - apply (binarySearch_membership sample_hashes 40 Hasc). cbn. tauto.
  - apply (binarySearch_membership sample_hashes 5 Hasc). cbn. lia.
  - apply (binarySearch_membership sample_hashes 25 Hasc). cbn. lia.
  - apply (binarySearch_membership sample_hashes 45 Hasc). cbn. lia.
Defined.

(** C10: with no database loaded, or an empty array loaded, [hasAddress]
    returns [false] for every address. *)
Theorem hasAddress_unloaded (db : HashOnlyBTCDB) (a : string) :
  hashes db = None \/ hashes db = Some [] ->
  hasAddress db a = Some false.
Proof.
  intros [H|H]; unfold hasAddress; rewrite H; reflexivity.
Qed.

Lemma hasAddress_unloaded_witness :
  hasAddress new_db "1A1zP1eP5QGefi2DMPTfTL5SLmv7DivfNa" = Some false /\
  hasAddress (mkDB (Some []) 0) "1A1zP1eP5QGefi2DMPTfTL5SLmv7DivfNa" = Some false.
Proof.
  split.
  - apply (hasAddress_unloaded new_db). left. reflexivity.
  - apply (hasAddress_unloaded (mkDB (Some []) 0)). right. reflexivity.
Defined.

(** ** The sortedness check *)

(** The loop reads nothing at or beyond index [i + n]. *)
Lemma verifyOrdering_loop_ext (hs hs' : list Z) (n : nat) :
  forall i : nat,
    (forall k : nat, (k < i + n)%nat -> hs !! k = hs' !! k) ->
    verifyOrdering_loop hs i n = verifyOrdering_loop hs' i n.
Proof.
  induction n as [|n IH]; intros i Hext; [reflexivity|].
  cbn [verifyOrdering_loop].
  rewrite <- (Hext i), <- (Hext (i - 1)%nat) by lia.
  rewrite (IH (S i)) by (intros k Hk; apply Hext; lia).
  reflexivity.
Qed.

Lemma sample_limit_pos : (0 < sample_limit)%nat.
Proof. unfold sample_limit. lia. Qed.

Lemma verifyOrdering_take (hs : list Z) :
  verifyOrdering hs = verifyOrdering (take sample_limit hs).
Proof.
  unfold verifyOrdering. rewrite length_take.
  replace (Nat.min sample_limit (Nat.min sample_limit (length hs)))
    with (Nat.min sample_limit (length hs)) by lia.
  apply verifyOrdering_loop_ext.
  intros k Hk. symmetry. apply lookup_take_lt.
  pose proof sample_limit_pos. lia.
Qed.

(** Inside the array, the loop accepts exactly when every pair it visits
    ascends. *)
Lemma verifyOrdering_loop_true (hs : list Z) (n : nat) :
  forall i : nat,
    (1 <= i)%nat -> (i + n <= length hs)%nat ->
    (verifyOrdering_loop hs i n = true <->
     forall (k : nat) (a b : Z),
       (i <= k < i + n)%nat ->
       hs !! (k - 1)%nat = Some b -> hs !! k = Some a -> b < a).
Proof.
  induction n as [|n IH]; intros i Hi Hlen.
  - split; [intros _ k a b Hk; lia|reflexivity].
  - cbn [verifyOrdering_loop].
    destruct (lookup_lt_is_Some_2 hs i ltac:(lia)) as [a Ha].
    destruct (lookup_lt_is_Some_2 hs (i - 1) ltac:(lia)) as [b Hb].
    rewrite Ha, Hb.
    destruct (Z.leb_spec a b) as [Hle|Hlt].
    + split; [discriminate|]. intros H.
      specialize (H i a b ltac:(lia) Hb Ha). lia.
    + rewrite (IH (S i)) by lia. split.
      * intros H k x y Hk Hy Hx.
        destruct (Nat.eq_dec k i) as [->|Hne].
        -- rewrite Ha in Hx. rewrite Hb in Hy. congruence.
        -- apply (H k x y); [lia|assumption|assumption].
      * intros H k x y Hk. apply H. lia.
Qed.

Lemma verifyOrdering_true (hs : list Z) :
  verifyOrdering hs = true <->
  forall (k : nat) (a b : Z),
    (1 <= k < Nat.min sample_limit (length hs))%nat ->
    hs !! (k - 1)%nat = Some b -> hs !! k = Some a -> b < a.
Proof.
  unfold verifyOrdering.
  destruct (Nat.eq_dec (Nat.min sample_limit (length hs)) 0%nat) as [Hz|Hnz].
  - rewrite Hz. cbn. split; [intros _ k a b Hk; lia|reflexivity].
  - rewrite verifyOrdering_loop_true by lia.
    split; intros H k a b Hk; apply H; lia.
Qed.

(** ** Reading the data *)

Lemma read_hashes_enough (buffer : list byte) (n : nat) :
  forall offset : nat,
    (offset + 8 * n <= length buffer)%nat ->
    snd (read_hashes buffer offset n) = true /\
    length (fst (read_hashes buffer offset n)) = n.
Proof.
  induction n as [|n IH]; intros offset Hlen; [split; reflexivity|].
  cbn [read_hashes]. unfold readBigUInt64LE.
  destruct (Nat.leb_spec (offset + 8) (length buffer)) as [_|Hbad]; [|lia].
  specialize (IH (offset + 8)%nat ltac:(lia)).
  destruct (read_hashes buffer (offset + 8) n) as [rest ok].
  cbn in *. destruct IH as [-> ->]. split; reflexivity.
Qed.

(** ** [Number] on a BigInt *)

Lemma Number_of_BigInt_small (z : Z) :
  z < 2 ^ 53 -> Number_of_BigInt z = z.
Proof.
  intros H. unfold Number_of_BigInt.
  destruct (Z.ltb_spec z (2 ^ 53)); [reflexivity|lia].
Qed.

Lemma Number_of_BigInt_large (z : Z) :
  2 ^ 53 <= z -> 2 ^ 53 <= Number_of_BigInt z.
Proof.
  intros H. unfold Number_of_BigInt.
  destruct (Z.ltb_spec z (2 ^ 53)) as [Hlt|_]; [lia|].
  assert (Hlog : 53 <= Z.log2 z).
  { change 53 with (Z.log2 (2 ^ 53)). apply Z.log2_le_mono. exact H. }
  set (e := Z.log2 z - 52).
  assert (He : 1 <= e) by (subst e; lia).
  assert (Hpow : 2 ^ 52 * 2 ^ e <= z).
  { rewrite <- Z.pow_add_r by lia.
    replace (52 + e) with (Z.log2 z) by (subst e; lia).
    apply Z.log2_spec. lia. }
  assert (H2e : 2 <= 2 ^ e).
  { change 2 with (2 ^ 1) at 1. apply Z.pow_le_mono_r; lia. }
  assert (Hq : 2 ^ 52 <= Z.shiftr z e).
  { rewrite Z.shiftr_div_pow2 by lia.
    apply Z.div_le_lower_bound; lia. }
  set (q := Z.shiftr z e) in *.
  assert (Hgoal : forall q' : Z, q <= q' -> 2 ^ 53 <= q' * 2 ^ e).
  { intros q' Hq'. change (2 ^ 53) with (2 ^ 52 * 2).
    assert (0 < 2 ^ 52) by reflexivity. nia. }
  destruct (_ <? _); [apply Hgoal; lia|].
  destruct (_ <? _); [apply Hgoal; lia|].
  destruct (Z.even q); apply Hgoal; lia.
Qed.

(** ** Loading *)

(** A file with a good header, at least one hash and enough data loads:
    the result is [true], the array is what was read, and the only thing
    the sortedness check can add is the warning. *)
Lemma loadDatabase_wellformed (buffer : list byte) (db : HashOnlyBTCDB)
    (count : Z) :
  (24 <= length buffer)%nat ->
  toString_ascii buffer 0 8 = "BTCHASH1"%string ->
  readBigUInt64LE buffer 8 = Some count ->
  readBigUInt64LE buffer 16 = Some 8 ->
  1 <= count ->
  Number_of_BigInt count * 8 <= Z.of_nat (length buffer) - 24 ->
  let hs := fst (read_hashes buffer hashDataStart
                   (Z.to_nat (Number_of_BigInt count))) in
  exists first lst : Z,
    loadDatabase (Some buffer) db =
      (true, mkDB (Some hs) count,
       [LogLoading; LogHashCount count; LogLoaded (length hs);
        LogFirstHash first; LogLastHash lst]
       ++ (if verifyOrdering hs then [] else [WarnNotSorted])).
Proof.
  intros Hlen Hmagic Hcount Hsize Hpos Henough hs.
  assert (Hnum : 1 <= Number_of_BigInt count).
  { destruct (Z.lt_ge_cases count (2 ^ 53)) as [Hs|Hl].
    - rewrite Number_of_BigInt_small by exact Hs. exact Hpos.
    - pose proof (Number_of_BigInt_large count Hl) as Hb.
      assert (0 < 2 ^ 53) by reflexivity. lia. }
  destruct (read_hashes_enough buffer (Z.to_nat (Number_of_BigInt count))
              hashDataStart) as [Hok Hn].
  { unfold hashDataStart. lia. }
  fold hs in Hn.
  assert (Hne : (1 <= length hs)%nat) by lia.
  destruct (lookup_lt_is_Some_2 hs 0 ltac:(lia)) as [first Hfirst].
  destruct (lookup_lt_is_Some_2 hs (pred (length hs)) ltac:(lia)) as [lst Hlast].
  rewrite <- last_lookup in Hlast.
  exists first, lst.
  unfold loadDatabase.
  destruct (Nat.ltb_spec (length buffer) 24) as [Hbad|_]; [lia|].
  rewrite Hmagic, Hcount, Hsize. cbn [String.eqb Ascii.eqb Bool.eqb negb Z.eqb Pos.eqb].
  destruct (Z.ltb_spec (Z.of_nat (length buffer) - Z.of_nat hashDataStart)
              (Number_of_BigInt count * 8)) as [Hbad|_].
  { unfold hashDataStart in Hbad. lia. }
  destruct (read_hashes buffer hashDataStart (Z.to_nat (Number_of_BigInt count)))
    as [hs' ok] eqn:Hread.
  cbn [fst snd] in *. subst hs ok.
  rewrite Hfirst, Hlast.
  destruct (verifyOrdering hs'); reflexivity.
Qed.

(** A file whose magic (as decoded), width or amount of data is wrong is
    refused, and [this.hashes] keeps the value it had. *)
Lemma loadDatabase_rejects (buffer : list byte) (db : HashOnlyBTCDB) :
  Z.of_nat (length buffer) < 2 ^ 53 ->
  toString_ascii buffer 0 8 <> "BTCHASH1"%string \/
  readBigUInt64LE buffer 16 <> Some 8 \/
  (exists count : Z,
      readBigUInt64LE buffer 8 = Some count /\
      Z.of_nat (length buffer) - 24 < count * 8) ->
  fst (fst (loadDatabase (Some buffer) db)) = false /\
  hashes (snd (fst (loadDatabase (Some buffer) db))) = hashes db.
Proof.
  intros Hmax Hbad. unfold loadDatabase.
  destruct (Nat.ltb_spec (length buffer) 24) as [_|Hlen]; [split; reflexivity|].
  destruct (String.eqb_spec (toString_ascii buffer 0 8) "BTCHASH1") as [Hm|_];
    [|split; reflexivity].
  cbn [negb].
  destruct (readBigUInt64LE buffer 8) as [count|] eqn:Hc; [|split; reflexivity].
  destruct (readBigUInt64LE buffer 16) as [size|] eqn:Hs; [|split; reflexivity].
  destruct (Z.eqb_spec size 8) as [->|_]; [|split; reflexivity].
  cbn [negb].
  destruct (Z.ltb_spec (Z.of_nat (length buffer) - Z.of_nat hashDataStart)
              (Number_of_BigInt count * 8)) as [_|Hok]; [split; reflexivity|].
  exfalso. destruct Hbad as [Hb|[Hb|[c [Hb Htr]]]].
  - contradiction.
  - apply Hb. reflexivity.
  - injection Hb as <-. unfold hashDataStart in Hok.
    destruct (Z.lt_ge_cases count (2 ^ 53)) as [Hsm|Hl].
    + rewrite Number_of_BigInt_small in Hok by exact Hsm. lia.
    + pose proof (Number_of_BigInt_large count Hl). lia.
Qed.

Example loadDatabase_rejects_wrong_magic :
  loadDatabase (Some wrong_magic_file) new_db =
    (false, new_db, [LogLoading; ErrInvalidMagic "BTCHASH2"]).
Proof. vm_compute. reflexivity. Qed.

Example loadDatabase_rejects_wrong_width :
  loadDatabase (Some wrong_width_file) new_db =
    (false, mkDB None 4, [LogLoading; LogHashCount 4; ErrInvalidHashSize 4]).
Proof. vm_compute. reflexivity. Qed.

Example loadDatabase_rejects_truncated :
  loadDatabase (Some truncated_file) new_db =
    (false, mkDB None 5,
     [LogLoading; LogHashCount 5; ErrInsufficientData 32 40]).
Proof. vm_compute. reflexivity. Qed.

Example loadDatabase_sample :
  loadDatabase (Some sample_file) new_db =
    (true, mkDB (Some sample_hashes) 4,
     [LogLoading; LogHashCount 4; LogLoaded 4; LogFirstHash 10; LogLastHash 40]).
Proof. vm_compute. reflexivity. Qed.

(** C4, at the input where the code departs from it: the first eight
    bytes are not the magic tag (the first one is 0xC2, not 0x42), yet the
    file loads and its index is usable. *)
Theorem loadDatabase_accepts_high_bit_magic :
  take 8 high_bit_magic_file <> magic_bytes /\
  loadDatabase (Some high_bit_magic_file) new_db =
    (true, mkDB (Some sample_hashes) 4,
     [LogLoading; LogHashCount 4; LogLoaded 4; LogFirstHash 10; LogLastHash 40]) /\
  hasAddress (snd (fst (loadDatabase (Some high_bit_magic_file) new_db)))
             "1A1zP1eP5QGefi2DMPTfTL5SLmv7DivfNa" = Some false.
Proof.
  split; [|split].
  - vm_compute. discriminate.
  - vm_compute. reflexivity.
  - vm_compute. reflexivity.
Qed.

(** C9: for a file that passes the header checks, loading succeeds and
    installs the array whether or not the sortedness check passes; a
    failed check adds the warning and nothing else; the check looks at the
    first 1000 elements only, so it passes (no warning) as soon as those
    ascend, whatever follows them. *)
Theorem verifyOrdering_bounded_nonfatal (buffer : list byte)
    (db : HashOnlyBTCDB) (count : Z) :
  (24 <= length buffer)%nat ->
  toString_ascii buffer 0 8 = "BTCHASH1"%string ->
  readBigUInt64LE buffer 8 = Some count ->
  readBigUInt64LE buffer 16 = Some 8 ->
  1 <= count ->
  Number_of_BigInt count * 8 <= Z.of_nat (length buffer) - 24 ->
  let hs := fst (read_hashes buffer hashDataStart
                   (Z.to_nat (Number_of_BigInt count))) in
  let '(ok, db', out) := loadDatabase (Some buffer) db in
  ok = true /\ db' = mkDB (Some hs) count /\
  (In WarnNotSorted out <-> verifyOrdering hs = false) /\
  verifyOrdering hs = verifyOrdering (take 1000 hs) /\
  (verifyOrdering hs = true <->
   forall (k : nat) (a b : Z),
     (1 <= k < Nat.min 1000 (length hs))%nat ->
     hs !! (k - 1)%nat = Some b -> hs !! k = Some a -> b < a) /\
  (ascending (take 1000 hs) -> ~ In WarnNotSorted out).
Proof.
  intros Hlen Hmagic Hcount Hsize Hpos Henough hs.
  destruct (loadDatabase_wellformed buffer db count Hlen Hmagic Hcount Hsize
              Hpos Henough) as [first [lst Hload]].
  fold hs in Hload. rewrite Hload.
  assert (Hwarn : In WarnNotSorted
            ([LogLoading; LogHashCount count; LogLoaded (length hs);
              LogFirstHash first; LogLastHash lst]
             ++ (if verifyOrdering hs then [] else [WarnNotSorted]))
          <-> verifyOrdering hs = false).
  { destruct (verifyOrdering hs); cbn; split; intros H; try discriminate;
      try reflexivity; [|tauto].
    repeat (destruct H as [H|H]; [discriminate|]). destruct H. }
  split; [reflexivity|]. split; [reflexivity|]. split; [exact Hwarn|].
  split; [apply verifyOrdering_take|].
  split; [apply verifyOrdering_true|].
  intros Hasc Hin. apply Hwarn in Hin.
  rewrite verifyOrdering_take in Hin.
  assert (Ht : verifyOrdering (take sample_limit hs) = true); [|congruence].
  apply verifyOrdering_true. intros k a b Hk Hb Ha.
  apply (Hasc (k - 1)%nat k b a Hb Ha). lia.
Qed.

Lemma verifyOrdering_bounded_nonfatal_witness :
  (24 <= length unsorted_tail_file)%nat /\
  toString_ascii unsorted_tail_file 0 8 = "BTCHASH1"%string /\
  readBigUInt64LE unsorted_tail_file 8 = Some 1001 /\
  readBigUInt64LE unsorted_tail_file 16 = Some 8 /\
  1 <= 1001 /\
  Number_of_BigInt 1001 * 8 <= Z.of_nat (length unsorted_tail_file) - 24 /\
  (let hs := fst (read_hashes unsorted_tail_file hashDataStart
                    (Z.to_nat (Number_of_BigInt 1001))) in
   let '(ok, db', out) := loadDatabase (Some unsorted_tail_file) new_db in
   ok = true /\ db' = mkDB (Some hs) 1001 /\
   (In WarnNotSorted out <-> verifyOrdering hs = false) /\
   verifyOrdering hs = verifyOrdering (take 1000 hs) /\
   (verifyOrdering hs = true <->
    forall (k : nat) (a b : Z),
      (1 <= k < Nat.min 1000 (length hs))%nat ->
      hs !! (k - 1)%nat = Some b -> hs !! k = Some a -> b < a) /\
   (ascending (take 1000 hs) -> ~ In WarnNotSorted out)).
Proof.
  assert (H1 : (24 <= length unsorted_tail_file)%nat)
    by (apply Nat.leb_le; vm_compute; reflexivity).
  assert (H2 : toString_ascii unsorted_tail_file 0 8 = "BTCHASH1"%string)
    by (vm_compute; reflexivity).
  assert (H3 : readBigUInt64LE unsorted_tail_file 8 = Some 1001)
    by (vm_compute; reflexivity).
  assert (H4 : readBigUInt64LE unsorted_tail_file 16 = Some 8)
    by (vm_compute; reflexivity).
  assert (H5 : 1 <= 1001) by lia.
  assert (H6 : Number_of_BigInt 1001 * 8
               <= Z.of_nat (length unsorted_tail_file) - 24)
    by (apply Z.leb_le; vm_compute; reflexivity).
  refine (conj H1 (conj H2 (conj H3 (conj H4 (conj H5 (conj H6 _)))))).
  exact (verifyOrdering_bounded_nonfatal unsorted_tail_file new_db 1001
           H1 H2 H3 H4 H5 H6).
Defined.

(** The descent between the elements of index 999 and 1000 goes
    unnoticed: the file loads and nothing is warned. *)
Example loadDatabase_unsorted_tail :
  ascendingb unsorted_tail = false /\
  loadDatabase (Some unsorted_tail_file) new_db =
    (true, mkDB (Some unsorted_tail) 1001,
     [LogLoading; LogHashCount 1001; LogLoaded 1001;
      LogFirstHash 1; LogLastHash 0]).
Proof. split; vm_compute; reflexivity. Qed.

(** The descent between the elements of index 998 and 999 is seen: the
    file loads all the same, with the warning. *)
Example loadDatabase_unsorted_head :
  loadDatabase (Some unsorted_head_file) new_db =
    (true, mkDB (Some unsorted_head) 1000,
     [LogLoading; LogHashCount 1000; LogLoaded 1000;
      LogFirstHash 1; LogLastHash 0; WarnNotSorted]).
Proof. vm_compute. reflexivity. Qed.

(* ===================================================================== *)
(** * Properties of the enumerator                                        *)
(* ===================================================================== *)

Lemma find_pos_None (s : list Z) (n : nat) :
  find_pos s n = None ->
  forall i : nat, (i < n)%nat -> s !! i = Some (2036 + Z.of_nat i).
Proof.
  induction n as [|n IH]; intros H i Hi; [lia|].
  cbn [find_pos] in H.
  destruct (s !! n) as [v|] eqn:Hn; [|discriminate].
  destruct (Z.eqb_spec v (2036 + Z.of_nat n)) as [->|_]; [|discriminate].
  destruct (Nat.eq_dec i n) as [->|Hne]; [exact Hn|].
  apply IH; [exact H|lia].
Qed.

Lemma find_pos_Some (s : list Z) (n i : nat) :
  find_pos s n = Some i ->
  (i < n)%nat /\
  s !! i <> Some (2036 + Z.of_nat i) /\
  (forall j : nat, (i < j < n)%nat -> s !! j = Some (2036 + Z.of_nat j)).
Proof.
  induction n as [|n IH]; intros H; [discriminate|].
  cbn [find_pos] in H.
  destruct (s !! n) as [v|] eqn:Hn.
  - destruct (Z.eqb_spec v (2036 + Z.of_nat n)) as [->|Hv].
    + destruct (IH H) as (Hi & Hne & Hmax).
      split; [lia|]. split; [exact Hne|].
      intros j Hj. destruct (Nat.eq_dec j n) as [->|Hd]; [exact Hn|].
      apply Hmax. lia.
    + injection H as <-. split; [lia|]. split; [congruence|].
      intros j Hj. lia.
  - injection H as <-. split; [lia|]. split; [congruence|].
    intros j Hj. lia.
Qed.

Lemma length_fill (m : nat) :
  forall (l : list Z) (i : nat) (val : Z), length (fill l i val m) = length l.
Proof.
  induction m as [|m IH]; intros l i val; [reflexivity|].
  cbn [fill]. rewrite IH. apply length_insert.
Qed.

(** On an array of twelve integers or more, every read and store of
    [nextCombination] is inside the array. *)
Lemma nextCombination_defined (s : list Z) :
  (12 <= length s)%nat ->
  exists (b : bool) (s' : list Z),
    nextCombination s = Some (b, s') /\ length s' = length s.
Proof.
  intros Hlen. unfold nextCombination.
  destruct (find_pos s 12) as [i|] eqn:Hfp.
  - apply find_pos_Some in Hfp as (Hi & _).
    destruct (lookup_lt_is_Some_2 s i ltac:(lia)) as [v ->].
    eexists _, _. split; [reflexivity|].
    rewrite length_fill. apply length_insert.
  - eexists _, _. split; reflexivity.
Qed.

(** What the fall-through leaves in the array. *)
Lemma fill_lookup (m : nat) :
  forall (l : list Z) (i : nat) (val : Z) (j : nat),
    (i + m < length l)%nat ->
    fill l i val m !! j =
      if decide (i < j <= i + m)%nat
      then Some (val + Z.of_nat (j - i))
      else l !! j.
Proof.
  induction m as [|m IH]; intros l i val j Hlen.
  - cbn [fill]. destruct (decide _) as [H|_]; [lia|reflexivity].
  - cbn [fill]. rewrite IH by (rewrite length_insert; lia).
    destruct (decide (i < j <= i + m)%nat) as [H1|H1].
    + destruct (decide _) as [_|H2]; [reflexivity|lia].
    + destruct (decide (i < j <= i + S m)%nat) as [H2|H2].
      * assert (j = (i + S m)%nat) as -> by lia.
        rewrite list_lookup_insert_eq by lia.
        f_equal. lia.
      * apply list_lookup_insert_ne. lia.
Qed.

(** First difference: two vectors of one length are ordered exactly when
    they agree up to a position where the first is smaller. *)
Lemma lex_lt_first_diff (a : list Z) :
  forall b : list Z,
    length a = length b ->
    (lex_lt a b <->
     exists (j : nat) (x y : Z),
       (forall k : nat, (k < j)%nat -> a !! k = b !! k) /\
       a !! j = Some x /\ b !! j = Some y /\ x < y).
Proof.
  induction a as [|x a IH]; intros [|y b] Hlen; try discriminate.
  - cbn. split; [intros []|]. intros (j & u & v & _ & Hu & _). discriminate.
  - cbn [lex_lt]. injection Hlen as Hlen. split.
    + intros [Hlt|[-> Hrec]].
      * exists 0%nat, x, y. split; [intros k Hk; lia|]. auto.
      * apply (IH b Hlen) in Hrec as (j & u & v & Hagree & Hu & Hv & Huv).
        exists (S j), u, v. split; [|auto].
        intros [|k] Hk; [reflexivity|]. cbn. apply Hagree. lia.
    + intros (j & u & v & Hagree & Hu & Hv & Huv).
      destruct j as [|j].
      * cbn in Hu, Hv. left. congruence.
      * right. split.
        -- specialize (Hagree 0%nat ltac:(lia)). cbn in Hagree. congruence.
        -- apply (IH b Hlen). exists j, u, v. split; [|auto].
           intros k Hk. apply (Hagree (S k)). lia.
Qed.

Lemma at_pos_lookup (s : list Z) (j : nat) :
  (j < length s)%nat -> s !! j = Some (at_pos s j).
Proof.
  intros H. unfold at_pos.
  destruct (lookup_lt_is_Some_2 s j H) as [x ->]. reflexivity.
Qed.

Lemma at_pos_Some (s : list Z) (j : nat) (x : Z) :
  s !! j = Some x -> at_pos s j = x.
Proof. intros H. unfold at_pos. rewrite H. reflexivity. Qed.

(** Validity and order, read position by position. *)
Lemma valid_at_pos (s : list Z) :
  valid s <->
  length s = 12%nat /\
  (forall i j : nat, (i < j < 12)%nat -> at_pos s i < at_pos s j) /\
  (forall j : nat, (j < 12)%nat -> 0 <= at_pos s j <= 2036 + Z.of_nat j).
Proof.
  split.
  - intros (Hlen & Hasc & Hrange). split; [exact Hlen|]. split.
    + intros i j Hij.
      apply (Hasc i j); [apply at_pos_lookup; lia|apply at_pos_lookup; lia|lia].
    + intros j Hj. apply (Hrange j). apply at_pos_lookup. lia.
  - intros (Hlen & Hasc & Hrange). split; [exact Hlen|]. split.
    + intros i j a b Hi Hj Hij.
      pose proof (lookup_lt_Some _ _ _ Hj).
      rewrite <- (at_pos_Some _ _ _ Hi), <- (at_pos_Some _ _ _ Hj).
      apply Hasc. lia.
    + intros j a Hj. pose proof (lookup_lt_Some _ _ _ Hj).
      rewrite <- (at_pos_Some _ _ _ Hj). apply Hrange. lia.
Qed.

Lemma lex_lt_at_pos (a b : list Z) :
  length a = 12%nat -> length b = 12%nat ->
  (lex_lt a b <->
   exists j : nat,
     (j < 12)%nat /\
     (forall k : nat, (k < j)%nat -> at_pos a k = at_pos b k) /\
     at_pos a j < at_pos b j).
Proof.
  intros Ha Hb. rewrite lex_lt_first_diff by congruence. split.
  - intros (j & x & y & Hagree & Hx & Hy & Hxy).
    pose proof (lookup_lt_Some _ _ _ Hx).
    exists j. split; [lia|]. split.
    + intros k Hk. unfold at_pos. rewrite (Hagree k Hk). reflexivity.
    + rewrite (at_pos_Some _ _ _ Hx), (at_pos_Some _ _ _ Hy). exact Hxy.
  - intros (j & Hj & Hagree & Hlt).
    exists j, (at_pos a j), (at_pos b j). split.
    + intros k Hk. rewrite !at_pos_lookup by lia. f_equal. apply Hagree, Hk.
    + rewrite !at_pos_lookup by lia. auto.
Qed.

(** The array that [nextCombination] leaves when it advances position [i]
    from [v]. *)
Lemma advanced_at_pos (s : list Z) (i : nat) (v : Z) :
  length s = 12%nat -> (i < 12)%nat ->
  let s' := fill (<[i := v + 1]> s) i (v + 1) (11 - i) in
  length s' = 12%nat /\
  (forall j : nat, (j < i)%nat -> at_pos s' j = at_pos s j) /\
  (forall j : nat, (i <= j < 12)%nat ->
     at_pos s' j = v + 1 + Z.of_nat (j - i)).
Proof.
  intros Hlen Hi s'.
  assert (Hlook : forall j : nat,
    s' !! j = if decide (i < j <= i + (11 - i))%nat
              then Some (v + 1 + Z.of_nat (j - i))
              else <[i := v + 1]> s !! j).
  { intros j. subst s'. apply fill_lookup. rewrite length_insert. lia. }
  split; [subst s'; rewrite length_fill, length_insert; exact Hlen|]. split.
  - intros j Hj. unfold at_pos. rewrite Hlook.
    destruct (decide _) as [H|_]; [lia|].
    rewrite list_lookup_insert_ne by lia. reflexivity.
  - intros j Hj. unfold at_pos. rewrite Hlook.
    destruct (decide _) as [_|H]; [reflexivity|].
    assert (j = i) as -> by lia.
    rewrite list_lookup_insert_eq by lia. cbv [from_option id]. lia.
Qed.

(** No valid state lies strictly between a state and the one that
    [nextCombination] makes of it. *)
Lemma advanced_is_next (s s' t : list Z) (i : nat) (v : Z) :
  (i < 12)%nat ->
  length s = 12%nat -> length s' = 12%nat ->
  at_pos s i = v ->
  (forall j : nat, (i < j < 12)%nat -> at_pos s j = 2036 + Z.of_nat j) ->
  (forall j : nat, (j < i)%nat -> at_pos s' j = at_pos s j) ->
  (forall j : nat, (i <= j < 12)%nat -> at_pos s' j = v + 1 + Z.of_nat (j - i)) ->
  valid t -> lex_lt s t -> lex_lt t s' -> False.
Proof.
  intros Hi Hls Hls' Hv Hmax Hbefore Hafter Ht Hst Hts'.
  apply valid_at_pos in Ht as (Hlt & Hasc & Hrange).
  apply (lex_lt_at_pos s t Hls Hlt) in Hst as (j1 & Hj1 & A1 & B1).
  apply (lex_lt_at_pos t s' Hlt Hls') in Hts' as (j2 & Hj2 & A2 & B2).
  destruct (lt_eq_lt_dec j1 i) as [[Hc| ->]|Hc].
  - (* the first difference with [s] comes before [i] *)
    destruct (lt_eq_lt_dec j2 j1) as [[Hd| ->]|Hd].
    + rewrite (Hbefore j2), (A1 j2) in B2 by lia. lia.
    + rewrite (Hbefore j1) in B2 by lia. lia.
    + specialize (A2 j1 Hd). rewrite (Hbefore j1) in A2 by lia. lia.
  - (* it is at [i] *)
    destruct (lt_eq_lt_dec j2 i) as [[Hd| ->]|Hd].
    + rewrite (Hbefore j2), (A1 j2) in B2 by lia. lia.
    + rewrite (Hafter i) in B2 by lia. lia.
    + pose proof (A2 (j2 - 1)%nat ltac:(lia)) as Hprev.
      rewrite (Hafter (j2 - 1)%nat) in Hprev by lia.
      rewrite (Hafter j2) in B2 by lia.
      pose proof (Hasc (j2 - 1)%nat j2 ltac:(lia)). lia.
  - (* it is after [i], where [s] is at its maximum *)
    rewrite (Hmax j1) in B1 by lia.
    pose proof (Hrange j1 Hj1). lia.
Qed.

(** C2: on a valid state, [nextCombination] stops at the rightmost
    position [i] whose value is below [2036 + i]; if there is none it
    returns [false] and leaves the state alone; otherwise it returns
    [true], position [i] is one more, the positions after it count up from
    there, those before it are untouched, and the new state is valid and
    is the immediate successor in lexicographic order. *)
Theorem nextCombination_successor (s : list Z) :
  valid s ->
  (find_pos s 12 = None /\
   (forall i : nat, (i < 12)%nat -> s !! i = Some (2036 + Z.of_nat i)) /\
   nextCombination s = Some (false, s))
  \/
  (exists (i : nat) (v : Z) (s' : list Z),
     find_pos s 12 = Some i /\ (i < 12)%nat /\
     s !! i = Some v /\ v < 2036 + Z.of_nat i /\
     (forall j : nat, (i < j < 12)%nat -> s !! j = Some (2036 + Z.of_nat j)) /\
     nextCombination s = Some (true, s') /\
     (forall j : nat, (j < i)%nat -> s' !! j = s !! j) /\
     (forall m : nat, (i + m < 12)%nat ->
        s' !! (i + m)%nat = Some (v + 1 + Z.of_nat m)) /\
     valid s' /\
     lex_lt s s' /\
     (forall t : list Z, valid t -> ~ (lex_lt s t /\ lex_lt t s'))).
Proof.
  intros Hvalid. pose proof Hvalid as (Hlen & Hasc & Hrange).
  apply valid_at_pos in Hvalid as (_ & Hasc' & Hrange').
  unfold nextCombination.
  destruct (find_pos s 12) as [i|] eqn:Hfp.
  - right. apply find_pos_Some in Hfp as (Hi & Hne & Hmax).
    pose proof (at_pos_lookup s i ltac:(lia)) as Hv.
    set (v := at_pos s i) in *.
    set (s' := fill (<[i := v + 1]> s) i (v + 1) (11 - i)).
    destruct (advanced_at_pos s i v Hlen Hi) as (Hlen' & Hbefore & Hafter).
    fold s' in Hlen', Hbefore, Hafter.
    assert (Hbelow : v < 2036 + Z.of_nat i).
    { pose proof (Hrange i v Hv).
      destruct (Z.eq_dec v (2036 + Z.of_nat i)) as [He|]; [|lia].
      exfalso. apply Hne. rewrite Hv, He. reflexivity. }
    assert (Hmax' : forall j : nat, (i < j < 12)%nat ->
                      at_pos s j = 2036 + Z.of_nat j).
    { intros j Hj. apply at_pos_Some, Hmax, Hj. }
    exists i, v, s'. rewrite Hv.
    split; [reflexivity|]. split; [exact Hi|]. split; [reflexivity|].
    split; [exact Hbelow|]. split; [exact Hmax|]. split; [reflexivity|].
    split.
    { intros j Hj. rewrite !at_pos_lookup by lia. f_equal. apply Hbefore, Hj. }
    split.
    { intros m Hm. rewrite at_pos_lookup by lia. f_equal.
      rewrite Hafter by lia. f_equal. lia. }
    split.
    { apply valid_at_pos. split; [exact Hlen'|]. split.
      - intros a b Hab.
        destruct (Nat.lt_ge_cases b i) as [Hb|Hb].
        + rewrite !Hbefore by lia. apply Hasc'. lia.
        + rewrite (Hafter b) by lia.
          destruct (Nat.lt_ge_cases a i) as [Ha|Ha].
          * rewrite Hbefore by lia.
            pose proof (Hasc' a i ltac:(lia)). fold v in H. lia.
          * rewrite Hafter by lia. lia.
      - intros j Hj.
        destruct (Nat.lt_ge_cases j i) as [Hb|Hb].
        + rewrite Hbefore by lia. apply Hrange'. lia.
        + rewrite Hafter by lia. pose proof (Hrange' i Hi). fold v in H. lia. }
    split.
    { apply lex_lt_at_pos; [exact Hlen|exact Hlen'|].
      exists i. split; [exact Hi|]. split.
      - intros k Hk. symmetry. apply Hbefore, Hk.
      - rewrite Hafter by lia. fold v. lia. }
    intros t Ht [Hst Hts'].
    exact (advanced_is_next s s' t i v Hi Hlen Hlen' eq_refl Hmax' Hbefore
             Hafter Ht Hst Hts').
  - left. split; [reflexivity|]. split; [|reflexivity].
    apply find_pos_None. exact Hfp.
Qed.

Lemma in_rangeb_sound (s : list Z) :
  forall i : nat,
    in_rangeb s i = true ->
    forall (j : nat) (a : Z),
      s !! j = Some a -> 0 <= a <= 2036 + Z.of_nat (i + j).
Proof.
  induction s as [|x s IH]; intros i H j a Hj; [destruct j; discriminate|].
  cbn [in_rangeb] in H.
  apply andb_true_iff in H as [H Hrest]. apply andb_true_iff in H as [H0 H1].
  destruct j as [|j]; cbn in Hj.
  - injection Hj as <-. lia.
  - specialize (IH (S i) Hrest j a Hj). lia.
Qed.

Lemma validb_sound (s : list Z) : validb s = true -> valid s.
Proof.
  unfold validb. intros H.
  apply andb_true_iff in H as [H Hr]. apply andb_true_iff in H as [Hl Ha].
  split; [apply Nat.eqb_eq, Hl|]. split; [apply ascendingb_sound, Ha|].
  intros i a Hi. apply (in_rangeb_sound s 0 Hr i a Hi).
Qed.

Lemma nextCombination_successor_witness :
  valid first_combination /\
  valid last_combination /\
  nextCombination last_combination = Some (false, last_combination) /\
  exists s' : list Z,
    nextCombination first_combination = Some (true, s') /\
    s' !! 11%nat = Some 12 /\ valid s' /\ lex_lt first_combination s'.
Proof.
  assert (Hf : valid first_combination) by (apply validb_sound; reflexivity).
  assert (Hl : valid last_combination) by (apply validb_sound; reflexivity).
  split; [exact Hf|]. split; [exact Hl|]. split.
  - destruct (nextCombination_successor last_combination Hl)
      as [(_ & _ & H)|(i & v & s' & H & _)].
    + exact H.
    + vm_compute in H. discriminate.
  - destruct (nextCombination_successor first_combination Hf)
      as [(H & _)|(i & v & s' & Hi & _ & Hv & _ & _ & Hn & _ & Hfill & Hs' & Hlt & _)].
    + vm_compute in H. discriminate.
    + exists s'. split; [exact Hn|]. split; [|split; assumption].
      vm_compute in Hi. injection Hi as <-.
      vm_compute in Hv. injection Hv as <-.
      exact (Hfill 0%nat ltac:(lia)).
Defined.

(* ===================================================================== *)
(** * Properties of the search and of the checkpoint store                *)
(* ===================================================================== *)

Section SearchFacts.

Variable Account : Type.
Variable validateMnemonic : string -> outcome bool.
Variable deriveAccount : string -> outcome Account.
Variable deriveAddress : Account -> nat -> outcome string.
Variables (stamp now elapsed : string).

Local Abbreviation generateAddresses' :=
  (generateAddresses Account validateMnemonic deriveAccount deriveAddress).
Local Abbreviation checkSeedPhrase' :=
  (checkSeedPhrase Account validateMnemonic deriveAccount deriveAddress).
Local Abbreviation iteration' :=
  (iteration Account validateMnemonic deriveAccount deriveAddress stamp).
Local Abbreviation do_while' :=
  (do_while Account validateMnemonic deriveAccount deriveAddress stamp).
Local Abbreviation main' :=
  (main Account validateMnemonic deriveAccount deriveAddress stamp now elapsed).

(** ** What [checkSeedPhrase] records *)

Lemma check_loop_matches (db : HashOnlyBTCDB) (addresses : list string) :
  forall (i : nat) (acc : list slot) (found : bool),
    check_loop db addresses i acc found =
      (acc ++ map Item (matches db addresses i),
       found || negb (Nat.eqb (length (matches db addresses i)) 0)).
Proof.
  induction addresses as [|a rest IH]; intros i acc found.
  - cbn. rewrite app_nil_r, orb_false_r. reflexivity.
  - cbn [check_loop matches].
    destruct (hasAddress db a) as [[|]|].
    + rewrite IH. cbn. rewrite <- app_assoc, !orb_true_r. reflexivity.
    + apply IH.
    + apply IH.
Qed.

(** The array returned is twelve empty slots followed by the entries. *)
Lemma checkSeedPhrase_slots (db : HashOnlyBTCDB) (seed : string) :
  let ms := matches db (generateAddresses' seed 20) 0 in
  checkSeedPhrase' db seed =
    (replicate 12 Empty ++ map Item ms, negb (Nat.eqb (length ms) 0)) /\
  length (fst (checkSeedPhrase' db seed)) = (12 + length ms)%nat.
Proof.
  intros ms. unfold checkSeedPhrase. rewrite check_loop_matches. fold ms.
  split; [reflexivity|].
  cbn [fst]. rewrite length_app, length_replicate, length_map. reflexivity.
Qed.

(** ** Derivation errors *)

Lemma generateAddresses_throws (seed : string) :
  derivation_throws validateMnemonic deriveAccount deriveAddress seed ->
  generateAddresses' seed 20 = [].
Proof.
  unfold generateAddresses.
  intros [->|[-> [->|(account & -> & ->)]]]; reflexivity.
Qed.

Lemma generateAddresses_silenced (seed : string) :
  generateAddresses Account
    (silenced validateMnemonic deriveAccount deriveAddress)
    deriveAccount deriveAddress seed 20
  = generateAddresses' seed 20.
Proof.
  unfold generateAddresses, silenced.
  destruct (validateMnemonic seed) as [[|]|]; try reflexivity.
  destruct (deriveAccount seed) as [account|]; try reflexivity.
  destruct (derive_loop Account deriveAddress account 0 20); reflexivity.
Qed.

Lemma iteration_silenced (st : SeedPermutationRecovery) (indices : list Z) :
  iteration Account (silenced validateMnemonic deriveAccount deriveAddress)
    deriveAccount deriveAddress stamp st indices
  = iteration' st indices.
Proof.
  unfold iteration, checkSeedPhrase.
  rewrite generateAddresses_silenced. reflexivity.
Qed.

Lemma do_while_silenced (sigint : Z -> bool) (fuel : nat) :
  forall (st : SeedPermutationRecovery) (indices : list Z) (attempts : Z),
    do_while Account (silenced validateMnemonic deriveAccount deriveAddress)
      deriveAccount deriveAddress stamp fuel sigint st indices attempts
    = do_while' fuel sigint st indices attempts.
Proof.
  induction fuel as [|fuel IH]; intros st indices attempts; [reflexivity|].
  cbn [do_while]. rewrite iteration_silenced.
  destruct (_ && _); [reflexivity|].
  destruct (nextCombination indices) as [[[|] indices']|]; try reflexivity.
  rewrite IH. reflexivity.
Qed.

(** ** Where a run starts *)

Lemma do_while_first (fuel : nat) (sigint : Z -> bool)
    (st : SeedPermutationRecovery) (indices : list Z) (attempts : Z) (r : run) :
  do_while' fuel sigint st indices attempts = Some r ->
  head (tested r) = Some indices.
Proof.
  destruct fuel as [|fuel]; [discriminate|]. cbn [do_while].
  destruct (_ && _); [intros [= <-]; reflexivity|].
  destruct (nextCombination indices) as [[[|] indices']|]; try discriminate.
  - destruct (do_while' fuel sigint _ indices' _) as [r'|]; [|discriminate].
    intros [= <-]. reflexivity.
  - intros [= <-]. reflexivity.
Qed.

Lemma startPermutationSearch_first (fuel : nat) (sigint : Z -> bool)
    (file file' : checkpoint_file) (st : SeedPermutationRecovery) (r : run) :
  startPermutationSearch Account validateMnemonic deriveAccount deriveAddress
    stamp now elapsed fuel sigint file st = Some (file', r) ->
  head (tested r) =
    Some (match currentIndices st with
          | Some saved => saved
          | None => first_combination
          end).
Proof.
  unfold startPermutationSearch.
  destruct (currentIndices st) as [saved|];
    (destruct (do_while' fuel sigint _ _ 0) as [r0|] eqn:Hrun; [|discriminate];
     apply do_while_first in Hrun;
     destruct (reason r0); intros [= <- <-]; exact Hrun).
Qed.

(** ** Save, then load *)

Lemma saveCheckpoint_loadCheckpoint (file : checkpoint_file)
    (st fresh : SeedPermutationRecovery) (indices : list Z) :
  currentIndices st = Some indices ->
  let st' := loadCheckpoint (fst (saveCheckpoint now elapsed true file st)) fresh in
  currentIndices st' = Some indices /\
  checkedCombinations st' = checkedCombinations st /\
  foundSeeds st' = map json_seed (foundSeeds st).
Proof.
  intros H. cbn. rewrite H. cbn. auto.
Qed.

Lemma json_seeds_fixed (seeds : list foundSeed) :
  (forall s : foundSeed, In s seeds -> ~ In Empty (foundAddresses s)) ->
  map json_seed seeds = seeds.
Proof.
  induction seeds as [|s seeds IH]; intros H; [reflexivity|].
  cbn [map]. rewrite IH by (intros s' Hs'; apply H; right; exact Hs').
  f_equal. destruct s as [phrase slots name]. unfold json_seed. cbn.
  f_equal. specialize (H _ (or_introl eq_refl)). cbn in H.
  induction slots as [|x slots IHs]; [reflexivity|].
  cbn [map]. rewrite IHs by (intros Hin; apply H; right; exact Hin).
  destruct x; try reflexivity. exfalso. apply H. left. reflexivity.
Qed.

(** ** Interrupt, then resume *)

Lemma iteration_currentIndices (st : SeedPermutationRecovery)
    (indices : list Z) :
  currentIndices (iteration' st indices) = Some indices /\
  checkedCombinations (iteration' st indices) = checkedCombinations st + 1.
Proof.
  unfold iteration.
  destruct (checkSeedPhrase' (database st) _) as [slots [|]]; split; reflexivity.
Qed.

(** When the handler runs, the combination just tested is the one in
    [this.currentIndices]. *)
Lemma do_while_interrupted (sigint : Z -> bool) (fuel : nat) :
  forall (st : SeedPermutationRecovery) (indices : list Z) (attempts : Z)
         (r : run),
    do_while' fuel sigint st indices attempts = Some r ->
    reason r = Interrupted ->
    last (tested r) = Some (last_indices r) /\
    currentIndices (final r) = Some (last_indices r).
Proof.
  induction fuel as [|fuel IH]; intros st indices attempts r; [discriminate|].
  cbn [do_while].
  destruct (_ && _).
  - intros [= <-] _. cbn. split; [reflexivity|]. apply iteration_currentIndices.
  - destruct (nextCombination indices) as [[[|] indices']|]; try discriminate.
    + destruct (do_while' fuel sigint _ indices' _) as [r'|] eqn:Hrun;
        [|discriminate].
      intros [= <-] Hreason. cbn in *.
      destruct (IH _ _ _ _ Hrun Hreason) as [Hlast Hcur].
      split; [|exact Hcur].
      destruct (tested r') as [|x l]; [discriminate|exact Hlast].
    + intros [= <-]. discriminate.
Qed.

(** A process started on the checkpoint of an interrupted one begins with
    the combination that the interrupted one tested last, and with a
    counter that has counted it already. *)
Lemma resumed_process_repeats_last_tested (fuel1 fuel2 : nat)
    (sigint1 sigint2 : Z -> bool) (db : HashOnlyBTCDB) (wl : list string)
    (file file1 file2 : checkpoint_file) (r1 r2 : run) :
  main' fuel1 sigint1 db wl file = Some (file1, r1) ->
  reason r1 = Interrupted ->
  main' fuel2 sigint2 db wl file1 = Some (file2, r2) ->
  head (tested r2) = last (tested r1) /\
  checkedCombinations (loadCheckpoint file1 (new_recovery db wl)) =
    checkedCombinations (final r1).
Proof.
  unfold main at 1. unfold startPermutationSearch.
  set (st0 := loadCheckpoint file (new_recovery db wl)).
  destruct (match currentIndices st0 with
            | Some saved => (saved, log st0 (EvResuming saved))
            | None => (first_combination, log st0 EvStartFirst)
            end) as [indices st1].
  destruct (do_while' fuel1 sigint1 st1 indices 0) as [r0|] eqn:Hrun;
    [|discriminate].
  destruct (reason r0) eqn:Hreason; cbn; intros [= <- <-]; [discriminate|].
  intros _ Hmain2.
  destruct (do_while_interrupted _ _ _ _ _ _ Hrun Hreason) as [Hlast Hcur].
  unfold main in Hmain2. apply startPermutationSearch_first in Hmain2.
  cbn in *. rewrite Hcur in *. cbn in *. split; [congruence|reflexivity].
Qed.

(** C8, as the code has it: when the derivation for a combination throws,
    [generateAddresses] returns no address, the combination is a
    non-match, and the iteration changes the object exactly as for any
    non-matching combination (both counters one more, nothing logged,
    nothing recorded); the loop goes on as it does with a library that
    never throws and answers "invalid" instead. *)
Theorem derivation_error_is_silent_no_match (st : SeedPermutationRecovery)
    (indices : list Z) :
  let seed := generateCombination (wordlist st) indices in
  derivation_throws validateMnemonic deriveAccount deriveAddress seed ->
  generateAddresses' seed 20 = [] /\
  checkSeedPhrase' (database st) seed = (replicate 12 Empty, false) /\
  iteration' st indices =
    mkRecovery (database st) (wordlist st)
      (checkedCombinations st + 1) (sessionCombinations st + 1)
      (foundSeeds st) (Some indices) (console st) /\
  (forall (fuel : nat) (sigint : Z -> bool) (attempts : Z),
      do_while' fuel sigint st indices attempts =
      do_while Account (silenced validateMnemonic deriveAccount deriveAddress)
        deriveAccount deriveAddress stamp fuel sigint st indices attempts).
Proof.
  intros seed Hthrow.
  pose proof (generateAddresses_throws seed Hthrow) as Hgen.
  assert (Hcheck : checkSeedPhrase' (database st) seed = (replicate 12 Empty, false)).
  { unfold checkSeedPhrase. rewrite Hgen. reflexivity. }
  split; [exact Hgen|]. split; [exact Hcheck|]. split.
  - unfold iteration. fold seed. rewrite Hcheck. reflexivity.
  - intros fuel sigint attempts. symmetry. apply do_while_silenced.
Qed.

(** With a [SIGINT] at the first yield, a loop started on an array of
    twelve integers or more gives its result as soon as it has fuel for a
    thousand iterations: no read or store of [nextCombination] leaves the
    array, whatever the integers are. *)
Lemma do_while_first_yield (n : nat) :
  forall (fuel : nat) (st : SeedPermutationRecovery) (indices : list Z)
         (attempts : Z),
    (12 <= length indices)%nat ->
    0 <= attempts -> attempts + Z.of_nat n = 1000 -> (1 <= n <= fuel)%nat ->
    exists r : run,
      do_while' fuel at_first_yield st indices attempts = Some r.
Proof.
  induction n as [|n IH]; intros fuel st indices attempts Hlen Ha Hn Hfuel;
    [lia|].
  destruct fuel as [|fuel]; [lia|]. cbn [do_while]. unfold at_first_yield at 1.
  destruct (Z.eqb_spec (attempts + 1) 1000) as [He|Hne].
  - rewrite He. cbn. eexists. reflexivity.
  - rewrite andb_false_r.
    destruct (nextCombination_defined indices Hlen) as (b & s' & -> & Hlen').
    destruct b; [|eexists; reflexivity].
    destruct (IH fuel (iteration' st indices) s' (attempts + 1))
      as [r ->]; try lia.
    eexists. reflexivity.
Qed.

(** C5, as the code has it, for checkpoints whose indices value is an
    array of integers or is missing: [loadCheckpoint] takes a saved array
    as it is whenever the file parses and has one, with no check of order
    or range, and a search that gives a result has started from it; when
    the array has twelve integers or more, a process interrupted at its
    first yield does give a result and has tested that array first,
    whatever the integers are.  The search starts from the first
    combination when the file is missing, does not parse, or has no
    indices. *)
Theorem loadCheckpoint_resumes_any_indices (file : checkpoint_file)
    (db : HashOnlyBTCDB) (wl : list string) :
  currentIndices (loadCheckpoint file (new_recovery db wl)) =
    match file with
    | Json c => ck_indices c
    | _ => None
    end /\
  (forall (fuel : nat) (sigint : Z -> bool) (file' : checkpoint_file) (r : run),
      main' fuel sigint db wl file = Some (file', r) ->
      head (tested r) =
        Some (match file with
              | Json c => default first_combination (ck_indices c)
              | _ => first_combination
              end)) /\
  ((12 <= length (match file with
                  | Json c => default first_combination (ck_indices c)
                  | _ => first_combination
                  end))%nat ->
   forall fuel : nat, (1000 <= fuel)%nat ->
     exists (file' : checkpoint_file) (r : run),
       main' fuel at_first_yield db wl file = Some (file', r) /\
       head (tested r) =
         Some (match file with
               | Json c => default first_combination (ck_indices c)
               | _ => first_combination
               end)).
Proof.
  assert (Hload : currentIndices (loadCheckpoint file (new_recovery db wl)) =
                  match file with Json c => ck_indices c | _ => None end).
  { destruct file as [| |c]; try reflexivity.
    cbn. destruct (ck_indices c); reflexivity. }
  assert (Hhead : forall (fuel : nat) (sigint : Z -> bool)
                         (file' : checkpoint_file) (r : run),
      main' fuel sigint db wl file = Some (file', r) ->
      head (tested r) =
        Some (match file with
              | Json c => default first_combination (ck_indices c)
              | _ => first_combination
              end)).
  { intros fuel sigint file' r Hmain. unfold main in Hmain.
    apply startPermutationSearch_first in Hmain. rewrite Hmain, Hload.
    destruct file as [| |c]; reflexivity. }
  split; [exact Hload|]. split; [exact Hhead|].
  intros Hlen fuel Hfuel.
  assert (Hsome : exists x : checkpoint_file * run,
            main' fuel at_first_yield db wl file = Some x).
  { unfold main, startPermutationSearch. rewrite Hload.
    set (st0 := loadCheckpoint file (new_recovery db wl)).
    set (start := match file with
                  | Json c => default first_combination (ck_indices c)
                  | _ => first_combination
                  end) in Hlen.
    assert (Hrun : forall st1 : SeedPermutationRecovery,
              exists r : run,
                do_while' fuel at_first_yield st1 start 0 = Some r).
    { intros st1.
      apply (do_while_first_yield (Z.to_nat 1000)); first [exact Hlen|lia]. }
    assert (Hend : forall (st1 : SeedPermutationRecovery),
      exists x : checkpoint_file * run,
        match do_while' fuel at_first_yield st1 start 0 with
        | Some r =>
            match reason r with
            | Exhausted =>
                let st2 := set_currentIndices (final r) (last_indices r) in
                let '(file', st3) := saveCheckpoint now elapsed true file st2 in
                let st4 := log st3 (EvCompleted (checkedCombinations st3)
                                      (length (foundSeeds st3))) in
                Some (file', mkRun st4 (last_indices r) Exhausted (tested r))
            | Interrupted =>
                let '(file', st2) :=
                  saveCheckpoint now elapsed true file (final r) in
                Some (file', mkRun st2 (last_indices r) Interrupted (tested r))
            end
        | None => None
        end = Some x).
    { intros st1. destruct (Hrun st1) as [r ->].
      destruct (reason r); cbn; eexists; reflexivity. }
    subst start.
    destruct file as [| |c]; cbn beta iota; try apply Hend.
    destruct (ck_indices c) as [saved|]; cbn beta iota; apply Hend. }
  destruct Hsome as [[file' r] Hmain].
  exists file', r. split; [exact Hmain|]. exact (Hhead _ _ _ _ Hmain).
Qed.

End SearchFacts.

Lemma derivation_error_is_silent_no_match_witness :
  derivation_throws (ex_validate ex_target) throwing_account ex_address
    (generateCombination (wordlist (new_recovery ex_db ex_words)) ex_hit) /\
  iteration unit (ex_validate ex_target) throwing_account ex_address
    "2024-01-15T10-30-45-123Z" (new_recovery ex_db ex_words) ex_hit =
  mkRecovery ex_db ex_words 1 1 [] (Some ex_hit) [].
Proof.
  assert (H : derivation_throws (ex_validate ex_target) throwing_account
                ex_address
                (generateCombination (wordlist (new_recovery ex_db ex_words))
                   ex_hit)).
  { right. split; [vm_compute; reflexivity|]. left. reflexivity. }
  split; [exact H|].
  exact (proj1 (proj2 (proj2
    (derivation_error_is_silent_no_match unit (ex_validate ex_target)
       throwing_account ex_address "2024-01-15T10-30-45-123Z"
       (new_recovery ex_db ex_words) ex_hit H)))).
Defined.

(** C8, as stated, fails: the derivation for [ex_hit] throws, and the
    object and console after the iteration are the very ones left by a
    combination that is merely invalid: no log entry, no error count. *)
Lemma derivation_error_not_distinguished :
  throwing_account ex_target = Throw /\
  generateCombination ex_words ex_hit = ex_target /\
  iteration unit (ex_validate ex_target) throwing_account ex_address
    "2024-01-15T10-30-45-123Z" (new_recovery ex_db ex_words) ex_hit =
  iteration unit rejecting_validate ex_account ex_address
    "2024-01-15T10-30-45-123Z" (new_recovery ex_db ex_words) ex_hit /\
  console (iteration unit (ex_validate ex_target) throwing_account ex_address
             "2024-01-15T10-30-45-123Z" (new_recovery ex_db ex_words) ex_hit)
  = [].
Proof.
  split; [reflexivity|]. split; [reflexivity|].
  split; vm_compute; reflexivity.
Qed.

Lemma loadCheckpoint_resumes_any_indices_witness :
  (12 <= length descending)%nat /\
  (1000 <= Z.to_nat 7000)%nat /\
  exists (file' : checkpoint_file) (r : run),
    ex_main at_first_yield (Json descending_checkpoint) = Some (file', r) /\
    head (tested r) = Some descending.
Proof.
  assert (H1 : (12 <= length descending)%nat) by (cbn; lia).
  assert (H2 : (1000 <= Z.to_nat 7000)%nat) by lia.
  refine (conj H1 (conj H2 _)).
  exact (proj2 (proj2 (loadCheckpoint_resumes_any_indices unit
           (ex_validate ex_target) ex_account ex_address
           "2024-01-15T10-30-45-123Z" "2024-01-15T10:30:45.123Z" "0s"
           (Json descending_checkpoint) ex_db ex_words))
           H1 (Z.to_nat 7000) H2).
Defined.

(** C5, as stated, fails: the indices of this checkpoint descend, yet the
    checkpoint is taken, the search starts from it and goes on for a
    thousand combinations until it is interrupted. *)
Lemma descending_checkpoint_is_resumed :
  ~ valid descending /\
  currentIndices (loadCheckpoint (Json descending_checkpoint)
                    (new_recovery ex_db ex_words)) = Some descending /\
  head (tested_of (ex_main at_first_yield (Json descending_checkpoint))) =
    Some descending /\
  summary (ex_main at_first_yield (Json descending_checkpoint)) =
    Some (Interrupted, 6000, 0%nat).
Proof.
  split.
  - intros (_ & Hasc & _).
    specialize (Hasc 0%nat 1%nat 11 10 eq_refl eq_refl ltac:(lia)). lia.
  - split; [reflexivity|]. split; vm_compute; reflexivity.
Qed.

(** C7, at a hit: two of the twenty addresses are in the database, and
    the array returned has fourteen slots, the first twelve empty. *)
Theorem checkSeedPhrase_keeps_twelve_empty_slots :
  matches ex_db (generateAddresses unit (ex_validate ex_target) ex_account
                   ex_address ex_target 20) 0 =
    [mkFound 3 "addr3" "m/44'/0'/0'/0/3"; mkFound 7 "addr7" "m/44'/0'/0'/0/7"] /\
  checkSeedPhrase unit (ex_validate ex_target) ex_account ex_address
    ex_db ex_target =
    (replicate 12 Empty ++
       [Item (mkFound 3 "addr3" "m/44'/0'/0'/0/3");
        Item (mkFound 7 "addr7" "m/44'/0'/0'/0/7")], true) /\
  length (fst (checkSeedPhrase unit (ex_validate ex_target) ex_account
                 ex_address ex_db ex_target)) = 14%nat.
Proof.
  split; [|split]; vm_compute; reflexivity.
Qed.

(** C6, at a state that holds a found record: the indices and the counter
    come back equal, the found records do not (the empty slots come back
    as [null]). *)
Theorem checkpoint_roundtrip_changes_found_records :
  let file := fst (saveCheckpoint "2024-01-15T10:30:45.123Z" "0s" true NoFile
                     ex_hit_state) in
  let st' := loadCheckpoint file (new_recovery ex_db ex_words) in
  valid ex_hit /\
  currentIndices ex_hit_state = Some ex_hit /\
  currentIndices st' = currentIndices ex_hit_state /\
  checkedCombinations st' = checkedCombinations ex_hit_state /\
  foundSeeds st' = map json_seed (foundSeeds ex_hit_state) /\
  foundSeeds st' <> foundSeeds ex_hit_state.
Proof.
  cbv zeta.
  split; [apply validb_sound; vm_compute; reflexivity|].
  split; [vm_compute; reflexivity|].
  split; [vm_compute; reflexivity|].
  split; [vm_compute; reflexivity|].
  split; [vm_compute; reflexivity|].
  vm_compute. discriminate.
Qed.

(** C1, on the 6188 states from [near_end] on: run in one process the
    search tests 6188 combinations and reports 11188 tested and one found
    record; interrupted at the first yield and resumed, it tests the
    combination of the checkpoint a second time, and reports 11189 tested
    and two found records. *)
Theorem resumed_run_retests_saved_combination :
  summary uninterrupted = Some (Exhausted, 11188, 1%nat) /\
  summary first_session = Some (Interrupted, 6000, 1%nat) /\
  summary second_session = Some (Exhausted, 11189, 2%nat) /\
  last (tested_of first_session) = Some ex_hit /\
  head (tested_of second_session) = Some ex_hit /\
  tested_of first_session ++ tested_of second_session =
    take 1000 (tested_of uninterrupted) ++ drop 999 (tested_of uninterrupted) /\
  map seedPhrase (found_of uninterrupted) = [ex_target] /\
  map seedPhrase (found_of second_session) = [ex_target; ex_target].
Proof.
  split; [vm_compute; reflexivity|].
  split; [vm_compute; reflexivity|].
  split; [vm_compute; reflexivity|].
  split; [vm_compute; reflexivity|].
  split; [vm_compute; reflexivity|].
  split; [vm_compute; reflexivity|].
  split; vm_compute; reflexivity.
Qed.

(* ===================================================================== *)
(** * Further properties of the hash database                             *)
(* ===================================================================== *)

(** ** [binarySearch] on any array *)

Lemma binarySearch_loop_total (hs : list Z) (target : Z) (fuel : nat) :
  forall left right : Z,
    Z.max 0 (right - left + 1) < Z.of_nat fuel ->
    exists b : bool, binarySearch_loop fuel hs target left right = Some b.
Proof.
  induction fuel as [|fuel IH]; intros left right Hfuel; [lia|].
  cbn [binarySearch_loop].
  destruct (Z.leb_spec left right) as [Hle|Hgt]; [|eexists; reflexivity].
  set (mid := (left + right) / 2).
  assert (Hmid : left <= mid <= right).
  { subst mid. split.
    - apply Z.div_le_lower_bound; lia.
    - apply Z.div_le_upper_bound; lia. }
  destruct (hs !! Z.to_nat mid) as [midHash|]; [|apply IH; lia].
  destruct (midHash =? target); [eexists; reflexivity|].
  destruct (midHash <? target); apply IH; lia.
Qed.

Lemma binarySearch_loop_sound (hs : list Z) (target : Z) (fuel : nat) :
  forall left right : Z,
    binarySearch_loop fuel hs target left right = Some true -> In target hs.
Proof.
  induction fuel as [|fuel IH]; intros left right; [discriminate|].
  cbn [binarySearch_loop].
  destruct (left <=? right); [|discriminate].
  destruct (hs !! Z.to_nat ((left + right) / 2)) as [midHash|] eqn:Hlook;
    [|apply IH].
  destruct (Z.eqb_spec midHash target) as [->|_].
  - intros _. apply list_elem_of_In. eapply list_elem_of_lookup_2. exact Hlook.
  - destruct (midHash <? target); apply IH.
Qed.

(** X1: whatever the array holds, sorted or not, the search ends with an
    answer, and the answer [true] is never wrong: the target is in the
    array.  The same holds for [hasAddress] and the fingerprint of its
    argument. *)
Theorem binarySearch_any_array (hs : list Z) (target : Z) :
  (exists b : bool, binarySearch hs target = Some b) /\
  (binarySearch hs target = Some true -> In target hs) /\
  (forall (db : HashOnlyBTCDB) (a : string),
      hashes db = Some hs ->
      (exists b : bool, hasAddress db a = Some b) /\
      (hasAddress db a = Some true -> In (xxhash64 a) hs)).
Proof.
  assert (Htotal : forall t : Z, exists b : bool, binarySearch hs t = Some b).
  { intros t. unfold binarySearch. apply binarySearch_loop_total. lia. }
  split; [apply Htotal|]. split; [apply binarySearch_loop_sound|].
  intros db a Hdb. unfold hasAddress. rewrite Hdb.
  destruct hs as [|h hs'].
  - split; [eexists; reflexivity|discriminate].
  - split; [apply Htotal|apply binarySearch_loop_sound].
Qed.

(** ** [xxhash64] *)

Lemma land_mask64 (x : Z) : Z.land x mask64 = x mod 2 ^ 64.
Proof.
  change mask64 with (Z.ones 64). apply Z.land_ones. lia.
Qed.

Lemma xxhash64_round_u64 (h code : Z) : u64 (xxhash64_round h code).
Proof.
  unfold xxhash64_round, u64. rewrite land_mask64.
  apply Z.mod_pos_bound. reflexivity.
Qed.

Lemma fold_round_u64 (codes : list Z) :
  forall h : Z, u64 h -> u64 (fold_left xxhash64_round codes h).
Proof.
  induction codes as [|c codes IH]; intros h Hh; [exact Hh|].
  cbn [fold_left]. apply IH, xxhash64_round_u64.
Qed.

(** X2: the fingerprint of every string is a 64-bit value. *)
Theorem xxhash64_u64 (str : string) : u64 (xxhash64 str).
Proof.
  unfold xxhash64. apply fold_round_u64. unfold u64. lia.
Qed.

Lemma list_ascii_of_string_app (s1 s2 : string) :
  list_ascii_of_string (s1 ++ s2) =
  (list_ascii_of_string s1 ++ list_ascii_of_string s2)%list.
Proof.
  induction s1 as [|c s1 IH]; [reflexivity|].
  cbn. rewrite IH. reflexivity.
Qed.

(** X3: the fingerprint is computed left to right: the fingerprint of
    [s1 ++ s2] is obtained by running the rounds for [s2] from the
    fingerprint of [s1]; the empty string has the seed as fingerprint. *)
Theorem xxhash64_append (s1 s2 : string) :
  xxhash64 (s1 ++ s2) =
    fold_left xxhash64_round (map charCode (list_ascii_of_string s2))
              (xxhash64 s1) /\
  xxhash64 EmptyString = 0x9e3779b185ebca87.
Proof.
  split; [|reflexivity].
  unfold xxhash64.
  rewrite list_ascii_of_string_app, map_app, fold_left_app. reflexivity.
Qed.

Lemma rotate_disjoint (h : Z) :
  u64 h -> Z.land (Z.shiftl h 13) (Z.shiftr h 51) = 0.
Proof.
  intros [H0 H1]. apply Z.bits_inj'. intros n Hn.
  rewrite Z.land_spec, Z.bits_0.
  destruct (Z.lt_ge_cases n 13) as [Hlt|Hge].
  - rewrite Z.shiftl_spec_low by lia. reflexivity.
  - rewrite Z.shiftr_spec by lia.
    rewrite (Z.bits_above_log2 h (n + 51)); [apply andb_false_r|lia|].
    destruct (Z.eq_dec h 0) as [->|Hne]; [cbn; lia|].
    apply Z.log2_lt_pow2; [lia|].
    apply Z.lt_le_trans with (2 ^ 64); [exact H1|].
    apply Z.pow_le_mono_r; lia.
Qed.

Lemma rotate_sum (h : Z) :
  u64 h ->
  Z.land (Z.lor (Z.shiftl h 13) (Z.shiftr h 51)) mask64 = rotl13 h.
Proof.
  intros Hh. pose proof Hh as [H0 H1].
  rewrite land_mask64.
  rewrite <- Z.lxor_lor by (apply rotate_disjoint; exact Hh).
  rewrite <- Z.add_nocarry_lxor by (apply rotate_disjoint; exact Hh).
  rewrite Z.shiftl_mul_pow2, Z.shiftr_div_pow2 by lia.
  unfold rotl13.
  pose proof (Z.div_mod h (2 ^ 51) ltac:(lia)) as Hdm.
  pose proof (Z.mod_pos_bound h (2 ^ 51) ltac:(lia)) as Hm.
  assert (Hq : 0 <= h / 2 ^ 51 < 2 ^ 13).
  { split; [apply Z.div_pos; lia|].
    apply Z.div_lt_upper_bound; [lia|]. change (2 ^ 51 * 2 ^ 13) with (2 ^ 64). lia. }
  symmetry. apply (Z.mod_unique_pos _ _ (h / 2 ^ 51)).
  - change (2 ^ 64) with (2 ^ 51 * 2 ^ 13). change (2^13) with 8192 in *.
    change (2 ^ 51) with 2251799813685248 in *. lia.
  - change (2 ^ 64) with (2 ^ 51 * 2 ^ 13). change (2^13) with 8192 in *.
    change (2 ^ 51) with 2251799813685248 in *. lia.
Qed.

Lemma u64_lxor (a b : Z) : u64 a -> u64 b -> u64 (Z.lxor a b).
Proof.
  intros [Ha0 Ha1] [Hb0 Hb1]. split; [apply Z.lxor_nonneg; lia|].
  destruct (Z.eq_dec (Z.lxor a b) 0) as [->|Hne]; [reflexivity|].
  apply Z.log2_lt_pow2; [pose proof (proj2 (Z.lxor_nonneg a b)); lia|].
  pose proof (Z.log2_lxor a b Ha0 Hb0) as Hl.
  assert (La : Z.log2 a < 64).
  { destruct (Z.eq_dec a 0) as [->|]; [cbn; lia|apply Z.log2_lt_pow2; lia]. }
  assert (Lb : Z.log2 b < 64).
  { destruct (Z.eq_dec b 0) as [->|]; [cbn; lia|apply Z.log2_lt_pow2; lia]. }
  lia.
Qed.

Lemma charCode_range (c : ascii) : 0 <= charCode c < 256.
Proof.
  unfold charCode. pose proof (N_ascii_bounded c). lia.
Qed.

(** X4: on a 64-bit state, one round is: exclusive-or with the character
    code, rotation to the left by 13 bits, multiplication by the constant
    modulo 2^64. *)
Theorem xxhash64_round_rotate (h : Z) (c : ascii) :
  u64 h ->
  xxhash64_round h (charCode c) =
    (rotl13 (Z.lxor h (charCode c)) * 0xc2b2ae3d27d4eb4f) mod 2 ^ 64.
Proof.
  intros Hh. unfold xxhash64_round.
  rewrite rotate_sum.
  - apply land_mask64.
  - apply u64_lxor; [exact Hh|].
    pose proof (charCode_range c). unfold u64. lia.
Qed.

(** Neighbours in order make the whole array ascend. *)
Lemma adjacent_ascending (l : list Z) :
  (forall (k : nat) (a b : Z),
      (1 <= k < length l)%nat ->
      l !! (k - 1)%nat = Some b -> l !! k = Some a -> b < a) ->
  ascending l.
Proof.
  intros Hadj i j. revert i.
  induction j as [|j IH]; intros i a b Hi Hj Hij; [lia|].
  pose proof (lookup_lt_Some _ _ _ Hj) as Hlen.
  destruct (lookup_lt_is_Some_2 l j ltac:(lia)) as [c Hc].
  assert (Hcb : c < b).
  { apply (Hadj (S j) b c); [lia| |exact Hj].
    replace (S j - 1)%nat with j by lia. exact Hc. }
  destruct (Nat.eq_dec i j) as [->|Hne].
  - rewrite Hc in Hi. injection Hi as <-. exact Hcb.
  - specialize (IH i a c Hi Hc ltac:(lia)). lia.
Qed.

Lemma verifyOrdering_iff_ascending (hs : list Z) :
  verifyOrdering hs = true <-> ascending (take 1000 hs).
Proof.
  { rewrite verifyOrdering_take. change 1000%nat with sample_limit.
    rewrite verifyOrdering_true. rewrite length_take.
    replace (Nat.min sample_limit (Nat.min sample_limit (length hs)))
      with (Nat.min sample_limit (length hs)) by lia.
    split.
    - intros Hadj. apply adjacent_ascending. intros k a b Hk.
      rewrite length_take in Hk. apply Hadj. lia.
    - intros Hasc k a b Hk Hb Ha. apply (Hasc (k - 1)%nat k b a Hb Ha). lia. }
Qed.

(** X5: [verifyOrdering] accepts exactly when the first 1000 elements
    are strictly ascending; for an array of at most 1000 elements it
    decides whether the whole array is. *)
Theorem verifyOrdering_exact (hs : list Z) :
  (verifyOrdering hs = true <-> ascending (take 1000 hs)) /\
  ((length hs <= 1000)%nat -> (verifyOrdering hs = true <-> ascending hs)).
Proof.
  pose proof (verifyOrdering_iff_ascending hs) as H.
  split; [exact H|].
  intros Hlen. rewrite H. rewrite take_ge by lia. reflexivity.
Qed.

Lemma unloaded_answers_false (db : HashOnlyBTCDB) (a : string) :
  hashes db = None \/ hashes db = Some [] -> hasAddress db a = Some false.
Proof.
  intros [H|H]; unfold hasAddress; rewrite H; reflexivity.
Qed.

(** ** What [loadDatabase] leaves behind *)

Lemma byte_val_range (b : byte) : 0 <= byte_val b < 256.
Proof.
  unfold byte_val. pose proof (Byte.to_N_bounded b). lia.
Qed.

Lemma le_value_range (bs : list byte) :
  0 <= le_value bs < 256 ^ Z.of_nat (length bs).
Proof.
  induction bs as [|b bs IH]; [cbn; lia|].
  cbn [le_value length]. rewrite Nat2Z.inj_succ, Z.pow_succ_r by lia.
  pose proof (byte_val_range b). lia.
Qed.

Lemma readBigUInt64LE_u64 (buffer : list byte) (offset : nat) (v : Z) :
  readBigUInt64LE buffer offset = Some v -> u64 v.
Proof.
  unfold readBigUInt64LE.
  destruct (Nat.leb_spec (offset + 8) (length buffer)) as [Hle|]; [|discriminate].
  intros [= <-].
  pose proof (le_value_range (take 8 (drop offset buffer))) as H.
  rewrite length_take, length_drop in H.
  replace (Nat.min 8 (length buffer - offset)) with 8%nat in H by lia.
  exact H.
Qed.

Lemma read_hashes_u64 (buffer : list byte) (n : nat) :
  forall offset : nat, Forall u64 (fst (read_hashes buffer offset n)).
Proof.
  induction n as [|n IH]; intros offset; [constructor|].
  cbn [read_hashes].
  destruct (readBigUInt64LE buffer offset) as [h|] eqn:Hr; [|constructor].
  specialize (IH (offset + 8)%nat).
  destruct (read_hashes buffer (offset + 8) n) as [rest ok]. cbn in *.
  constructor; [eapply readBigUInt64LE_u64; exact Hr|exact IH].
Qed.

(** The shape of every result of [loadDatabase] on a buffer. *)
Lemma loadDatabase_cases (buffer : list byte) (db : HashOnlyBTCDB) :
  let '(ok, db', out) := loadDatabase (Some buffer) db in
  (ok = false /\ hashes db' = hashes db) \/
  (ok = false /\ db' = mkDB (Some []) 0 /\
   readBigUInt64LE buffer 8 = Some 0) \/
  (ok = true /\
   exists (count : Z) (hs : list Z),
     readBigUInt64LE buffer 8 = Some count /\
     db' = mkDB (Some hs) count /\
     hs = fst (read_hashes buffer hashDataStart
                 (Z.to_nat (Number_of_BigInt count))) /\
     Z.of_nat (length hs) = Number_of_BigInt count /\
     (1 <= length hs)%nat /\
     (hashDataStart + 8 * length hs <= length buffer)%nat /\
     (In WarnNotSorted out <-> verifyOrdering hs = false)).
Proof.
  unfold loadDatabase.
  destruct (Nat.ltb_spec (length buffer) 24) as [_|Hlen]; [left; auto|].
  destruct (negb _); [left; auto|].
  destruct (readBigUInt64LE buffer 8) as [count|] eqn:Hc; [|left; auto].
  destruct (readBigUInt64LE buffer 16) as [size|]; [|left; auto].
  destruct (negb _); [left; auto|].
  destruct (Z.ltb_spec (Z.of_nat (length buffer) - Z.of_nat hashDataStart)
              (Number_of_BigInt count * 8)) as [_|Hok]; [left; auto|].
  pose proof (readBigUInt64LE_u64 _ _ _ Hc) as [Hc0 _].
  assert (Hn0 : 0 <= Number_of_BigInt count).
  { destruct (Z.lt_ge_cases count (2 ^ 53)) as [Hs|Hl].
    - rewrite Number_of_BigInt_small by exact Hs. exact Hc0.
    - pose proof (Number_of_BigInt_large count Hl). lia. }
  destruct (read_hashes_enough buffer (Z.to_nat (Number_of_BigInt count))
              hashDataStart) as [Hsnd Hlenhs].
  { unfold hashDataStart in *. lia. }
  destruct (read_hashes buffer hashDataStart (Z.to_nat (Number_of_BigInt count)))
    as [hs ok] eqn:Hread.
  cbn [fst snd] in *. subst ok.
  destruct hs as [|h hs'].
  - cbn. right. left. split; [reflexivity|].
    cbn in Hlenhs.
    assert (Number_of_BigInt count = 0) by lia.
    assert (count = 0).
    { destruct (Z.lt_ge_cases count (2 ^ 53)) as [Hs|Hl].
      - rewrite Number_of_BigInt_small in H by exact Hs. exact H.
      - pose proof (Number_of_BigInt_large count Hl). lia. }
    subst count. split; reflexivity.
  - assert (Hlast : is_Some (last (h :: hs'))).
    { rewrite last_lookup. apply lookup_lt_is_Some_2. cbn. lia. }
    destruct Hlast as [lst Hlast]. rewrite Hlast.
    cbn [lookup list_lookup].
    assert (Hres : forall out : list msg,
      (In WarnNotSorted out <-> verifyOrdering (h :: hs') = false) ->
      exists (count0 : Z) (hs : list Z),
      Some count = Some count0 /\
      mkDB (Some (h :: hs')) count = mkDB (Some hs) count0 /\
      hs = fst (read_hashes buffer hashDataStart
                  (Z.to_nat (Number_of_BigInt count0))) /\
      Z.of_nat (length hs) = Number_of_BigInt count0 /\
      (1 <= length hs)%nat /\
      (hashDataStart + 8 * length hs <= length buffer)%nat /\
      (In WarnNotSorted out <-> verifyOrdering hs = false)).
    { intros out Hout. exists count, (h :: hs'). rewrite Hread.
      repeat split; try reflexivity; try apply Hout.
      - rewrite Hlenhs. lia.
      - cbn; lia.
      - rewrite Hlenhs. unfold hashDataStart in *. lia. }
    destruct (verifyOrdering (h :: hs')) eqn:Hv; cbn beta iota;
      right; right; (split; [reflexivity|]); apply Hres.
    + cbn. split; [|discriminate].
      intros H. repeat (destruct H as [H|H]; [discriminate|]). destruct H.
    + split; [reflexivity|]. intros _. apply in_or_app. right. left. reflexivity.
Qed.

(** X6: when [loadDatabase] returns [false], [this.hashes] is what it was
    before the call or the empty array; on a new object every later
    [hasAddress] therefore answers [false]. *)
Theorem loadDatabase_failure_keeps_no_index (file : option (list byte))
    (db : HashOnlyBTCDB) :
  fst (fst (loadDatabase file db)) = false ->
  (hashes (snd (fst (loadDatabase file db))) = hashes db \/
   hashes (snd (fst (loadDatabase file db))) = Some []) /\
  (hashes db = None ->
   forall a : string,
     hasAddress (snd (fst (loadDatabase file db))) a = Some false).
Proof.
  intros Hfail.
  assert (H : hashes (snd (fst (loadDatabase file db))) = hashes db \/
              hashes (snd (fst (loadDatabase file db))) = Some []).
  { destruct file as [buffer|]; [|left; reflexivity].
    pose proof (loadDatabase_cases buffer db) as Hc.
    destruct (loadDatabase (Some buffer) db) as [[ok db'] out]. cbn in *.
    destruct Hc as [[_ H]|[(_ & -> & _)|[Hok _]]]; [left; exact H|right; reflexivity|congruence]. }
  split; [exact H|].
  intros Hnone a. apply unloaded_answers_false. rewrite Hnone in H. exact H.
Qed.

(** X7: when [loadDatabase] returns [true], the file was read,
    [this.hashCount] is the count of its header, [this.hashes] holds that
    many values (at least one), each a 64-bit value, and the file has the
    24 bytes of header and 8 bytes for each of them. *)
Theorem loadDatabase_success_invariant (file : option (list byte))
    (db db' : HashOnlyBTCDB) (out : list msg) :
  loadDatabase file db = (true, db', out) ->
  exists (buffer : list byte) (hs : list Z),
    file = Some buffer /\
    hashes db' = Some hs /\
    readBigUInt64LE buffer 8 = Some (hashCount db') /\
    Z.of_nat (length hs) = Number_of_BigInt (hashCount db') /\
    (1 <= length hs)%nat /\
    (24 + 8 * length hs <= length buffer)%nat /\
    Forall u64 hs.
Proof.
  destruct file as [buffer|]; [|discriminate].
  intros Hload. pose proof (loadDatabase_cases buffer db) as Hc.
  rewrite Hload in Hc.
  destruct Hc as [[Hf _]|[[Hf _]|[_ (count & hs & Hcount & -> & Hhs & Hlen & Hne & Hfit & _)]]];
    try discriminate.
  exists buffer, hs. cbn.
  split; [reflexivity|]. split; [reflexivity|]. split; [exact Hcount|].
  split; [exact Hlen|]. split; [exact Hne|]. split; [exact Hfit|].
  rewrite Hhs. apply read_hashes_u64.
Qed.

(** X8: a file with a good header that declares no hash at all is not
    loaded: the first hash is printed before anything is returned, which
    fails on the empty array; [loadDatabase] returns [false] and leaves
    the empty array in [this.hashes]. *)
Theorem loadDatabase_empty_database (buffer : list byte) (db : HashOnlyBTCDB) :
  (24 <= length buffer)%nat ->
  toString_ascii buffer 0 8 = "BTCHASH1"%string ->
  readBigUInt64LE buffer 8 = Some 0 ->
  readBigUInt64LE buffer 16 = Some 8 ->
  loadDatabase (Some buffer) db =
    (false, mkDB (Some []) 0,
     [LogLoading; LogHashCount 0; LogLoaded 0; ErrLoading]).
Proof.
  intros Hlen Hmagic Hcount Hsize. unfold loadDatabase.
  destruct (Nat.ltb_spec (length buffer) 24) as [Hbad|_]; [lia|].
  rewrite Hmagic, Hcount, Hsize.
  cbn [String.eqb Ascii.eqb Bool.eqb negb Z.eqb Pos.eqb].
  change (Number_of_BigInt 0) with 0.
  destruct (Z.ltb_spec (Z.of_nat (length buffer) - Z.of_nat hashDataStart)
              (0 * 8)) as [Hbad|_].
  { unfold hashDataStart in Hbad. lia. }
  reflexivity.
Qed.

(** X9: after a load that succeeds without the warning, on a database
    of at most 1000 hashes, [hasAddress] is exact: [true] when the
    fingerprint of the address is among the hashes, [false] when not. *)
Theorem lookup_after_load (file : option (list byte))
    (db db' : HashOnlyBTCDB) (out : list msg) :
  loadDatabase file db = (true, db', out) ->
  ~ In WarnNotSorted out ->
  Number_of_BigInt (hashCount db') <= 1000 ->
  exists hs : list Z,
    hashes db' = Some hs /\
    forall a : string,
      (hasAddress db' a = Some true <-> In (xxhash64 a) hs) /\
      (hasAddress db' a = Some false <-> ~ In (xxhash64 a) hs).
Proof.
  destruct file as [buffer|]; [|discriminate].
  intros Hload Hnowarn Hsmall.
  pose proof (loadDatabase_cases buffer db) as Hc. rewrite Hload in Hc.
  destruct Hc as [[Hf _]|[[Hf _]|[_ (count & hs & Hcount & -> & Hhs & Hlen & Hne & Hfit & Hwarn)]]];
    try discriminate.
  cbn in Hsmall. exists hs. split; [reflexivity|].
  assert (Hv : verifyOrdering hs = true).
  { destruct (verifyOrdering hs); [reflexivity|].
    exfalso. apply Hnowarn, Hwarn. reflexivity. }
  assert (Hasc : ascending hs).
  { apply verifyOrdering_iff_ascending in Hv.
    rewrite take_ge in Hv by lia. exact Hv. }
  intros a. unfold hasAddress. cbn [hashes].
  destruct hs as [|h hs']; [cbn in Hne; lia|].
  destruct (binarySearch_decides (h :: hs') (xxhash64 a) Hasc) as [b [Hb Hiff]].
  rewrite Hb. split; split.
  - intros [= ->]. now apply Hiff.
  - intros Hin. f_equal. now apply Hiff.
  - intros [= ->] Hin. apply Hiff in Hin. discriminate.
  - intros Hn. destruct b; [|reflexivity]. exfalso. apply Hn. now apply Hiff.
Qed.

(** ** Files written in the format *)

Lemma byte_val_of_Z (z : Z) : 0 <= z < 256 -> byte_val (byte_of_Z z) = z.
Proof.
  intros Hz. unfold byte_val, byte_of_Z.
  destruct (Byte.of_N (Z.to_N z)) as [b|] eqn:Hb.
  - apply Byte.to_of_N in Hb. cbn. rewrite Hb. lia.
  - apply Byte.of_N_None_iff in Hb. lia.
Qed.

Lemma length_le_bytes (n : nat) : forall z : Z, length (le_bytes n z) = n.
Proof.
  induction n as [|n IH]; intros z; [reflexivity|].
  cbn [le_bytes length]. rewrite IH. reflexivity.
Qed.

Lemma le_value_le_bytes (n : nat) :
  forall z : Z, 0 <= z -> le_value (le_bytes n z) = z mod 256 ^ Z.of_nat n.
Proof.
  induction n as [|n IH]; intros z Hz.
  - cbn. rewrite Z.mod_1_r. reflexivity.
  - cbn [le_bytes le_value].
    rewrite byte_val_of_Z by (apply Z.mod_pos_bound; lia).
    rewrite IH by (apply Z.div_pos; lia).
    rewrite Nat2Z.inj_succ, Z.pow_succ_r by lia.
    rewrite Z.rem_mul_r by lia. reflexivity.
Qed.

Lemma readBigUInt64LE_le_bytes (pre post : list byte) (z : Z) :
  u64 z ->
  readBigUInt64LE (pre ++ le_bytes 8 z ++ post) (length pre) = Some z.
Proof.
  intros [Hz0 Hz1]. unfold readBigUInt64LE.
  rewrite !length_app, length_le_bytes.
  destruct (Nat.leb_spec (length pre + 8) (length pre + (8 + length post)))
    as [_|Hbad]; [|lia].
  rewrite drop_app_length.
  rewrite take_app_length' by (symmetry; apply length_le_bytes).
  rewrite le_value_le_bytes by exact Hz0.
  f_equal. apply Z.mod_small. change (256 ^ Z.of_nat 8) with (2 ^ 64). lia.
Qed.

Lemma read_hashes_encoded (hs : list Z) (post : list byte) :
  Forall u64 hs ->
  forall pre : list byte,
    read_hashes (pre ++ concat (map (le_bytes 8) hs) ++ post)
                (length pre) (length hs) = (hs, true).
Proof.
  induction 1 as [|h hs Hh Hhs IH]; intros pre; [reflexivity|].
  cbn [map concat length read_hashes].
  rewrite <- (app_assoc (le_bytes 8 h)).
  rewrite readBigUInt64LE_le_bytes by exact Hh.
  specialize (IH (pre ++ le_bytes 8 h)).
  rewrite length_app, length_le_bytes, <- app_assoc in IH.
  rewrite IH. reflexivity.
Qed.

(** X10: a file made of the magic tag, the count, the width 8 and the
    hashes, all little-endian, followed by any bytes, loads, and the array
    read back is the list of hashes that was written. *)
Theorem loadDatabase_db_file (hs : list Z) (trailing : list byte)
    (db : HashOnlyBTCDB) :
  hs <> [] ->
  Forall u64 hs ->
  Z.of_nat (length hs) < 2 ^ 53 ->
  exists out : list msg,
    loadDatabase
      (Some (db_file magic_bytes (Z.of_nat (length hs)) 8 hs ++ trailing)) db
    = (true, mkDB (Some hs) (Z.of_nat (length hs)), out) /\
    (In WarnNotSorted out <-> verifyOrdering hs = false).
Proof.
  intros Hne Hu Hsmall.
  set (count := Z.of_nat (length hs)).
  assert (Hcu : u64 count).
  { unfold u64. subst count. split; [lia|].
    apply Z.lt_trans with (2 ^ 53); [exact Hsmall|reflexivity]. }
  set (buffer := db_file magic_bytes count 8 hs ++ trailing).
  assert (Hbuf : buffer =
    magic_bytes ++ le_bytes 8 count ++ le_bytes 8 8 ++
    concat (map (le_bytes 8) hs) ++ trailing).
  { subst buffer. unfold db_file. rewrite <- !app_assoc. reflexivity. }
  assert (Hlenbuf : length buffer = (24 + 8 * length hs + length trailing)%nat).
  { rewrite Hbuf, !length_app, !length_le_bytes.
    assert (Hc : forall l : list Z,
              length (concat (map (le_bytes 8) l)) = (8 * length l)%nat).
    { induction l as [|x l IHl]; [reflexivity|].
      cbn [map concat length]. rewrite length_app, length_le_bytes, IHl. lia. }
    rewrite Hc. cbn. lia. }
  assert (Hnum : Number_of_BigInt count = count)
    by (apply Number_of_BigInt_small; exact Hsmall).
  assert (Hpos : 1 <= count).
  { subst count. destruct hs; [congruence|cbn [length]; lia]. }
  assert (Hcount : readBigUInt64LE buffer 8 = Some count).
  { rewrite Hbuf. apply (readBigUInt64LE_le_bytes magic_bytes _ count Hcu). }
  assert (Hsize : readBigUInt64LE buffer 16 = Some 8).
  { rewrite Hbuf.
    rewrite (app_assoc magic_bytes (le_bytes 8 count)).
    replace 16%nat with (length (magic_bytes ++ le_bytes 8 count))
      by (rewrite length_app, length_le_bytes; reflexivity).
    apply readBigUInt64LE_le_bytes. unfold u64. lia. }
  assert (Hread : read_hashes buffer hashDataStart
                    (Z.to_nat (Number_of_BigInt count)) = (hs, true)).
  { rewrite Hnum. subst count. rewrite Nat2Z.id. rewrite Hbuf.
    rewrite (app_assoc magic_bytes (le_bytes 8 _)).
    rewrite (app_assoc (magic_bytes ++ le_bytes 8 _) (le_bytes 8 8)).
    replace hashDataStart
      with (length ((magic_bytes ++ le_bytes 8 (Z.of_nat (length hs)))
                    ++ le_bytes 8 8))
      by (rewrite !length_app, !length_le_bytes; reflexivity).
    apply read_hashes_encoded. exact Hu. }
  destruct (loadDatabase_wellformed buffer db count) as [first [lst Hload]].
  - lia.
  - rewrite Hbuf. reflexivity.
  - exact Hcount.
  - exact Hsize.
  - exact Hpos.
  - rewrite Hnum, Hlenbuf. subst count. lia.
  - rewrite Hread in Hload. cbn [fst] in Hload.
    eexists. split; [exact Hload|].
    destruct (verifyOrdering hs); cbn; split; intros H; try discriminate;
      try reflexivity; [|tauto].
    repeat (destruct H as [H|H]; [discriminate|]). destruct H.
Qed.

(* ===================================================================== *)
(** * Further properties of the enumerator and of the search              *)
(* ===================================================================== *)

(** ** Steps of the enumerator *)

Lemma nextCombination_step (s s' : list Z) :
  valid s ->
  nextCombination s = Some (true, s') ->
  valid s' /\ lex_lt s s' /\
  (forall t : list Z, valid t -> ~ (lex_lt s t /\ lex_lt t s')).
Proof.
  intros Hvalid. pose proof Hvalid as (Hlen & Hasc & Hrange).
  apply valid_at_pos in Hvalid as (_ & Hasc' & Hrange').
  unfold nextCombination.
  destruct (find_pos s 12) as [i|] eqn:Hfp; [|discriminate].
  apply find_pos_Some in Hfp as (Hi & Hne & Hmax).
  pose proof (at_pos_lookup s i ltac:(lia)) as Hv.
  set (v := at_pos s i) in *. rewrite Hv. intros [= <-].
  destruct (advanced_at_pos s i v Hlen Hi) as (Hlen' & Hbefore & Hafter).
  set (s' := fill (<[i := v + 1]> s) i (v + 1) (11 - i)) in *.
  assert (Hbelow : v < 2036 + Z.of_nat i).
  { pose proof (Hrange i v Hv).
    destruct (Z.eq_dec v (2036 + Z.of_nat i)) as [He|]; [|lia].
    exfalso. apply Hne. rewrite Hv, He. reflexivity. }
  assert (Hmax' : forall j : nat, (i < j < 12)%nat ->
                    at_pos s j = 2036 + Z.of_nat j).
  { intros j Hj. apply at_pos_Some, Hmax, Hj. }
  split; [|split].
  - apply valid_at_pos. split; [exact Hlen'|]. split.
    + intros a b Hab.
      destruct (Nat.lt_ge_cases b i) as [Hb|Hb].
      * rewrite !Hbefore by lia. apply Hasc'. lia.
      * rewrite (Hafter b) by lia.
        destruct (Nat.lt_ge_cases a i) as [Ha|Ha].
        -- rewrite Hbefore by lia.
           pose proof (Hasc' a i ltac:(lia)) as H. fold v in H. lia.
        -- rewrite Hafter by lia. lia.
    + intros j Hj.
      destruct (Nat.lt_ge_cases j i) as [Hb|Hb].
      * rewrite Hbefore by lia. apply Hrange'. lia.
      * rewrite Hafter by lia. pose proof (Hrange' i Hi) as H. fold v in H. lia.
  - apply lex_lt_at_pos; [exact Hlen|exact Hlen'|].
    exists i. split; [exact Hi|]. split.
    + intros k Hk. symmetry. apply Hbefore, Hk.
    + rewrite Hafter by lia. fold v. lia.
  - intros t Ht [Hst Hts'].
    exact (advanced_is_next s s' t i v Hi Hlen Hlen' eq_refl Hmax' Hbefore
             Hafter Ht Hst Hts').
Qed.

Lemma valid_last_combination : valid last_combination.
Proof. apply validb_sound. reflexivity. Qed.

(** X11: on a valid state, [nextCombination] answers [false] exactly at
    the last combination [2036, ..., 2047], and then leaves it as it is. *)
Theorem nextCombination_exhausted_iff (s : list Z) :
  valid s ->
  (nextCombination s = Some (false, s) <-> s = last_combination) /\
  (forall s' : list Z, nextCombination s = Some (false, s') -> s' = s).
Proof.
  intros (Hlen & Hasc & Hrange). split.
  - split.
    + unfold nextCombination.
      destruct (find_pos s 12) as [i|] eqn:Hfp.
      * destruct (s !! i); discriminate.
      * intros _. pose proof (find_pos_None s 12 Hfp) as Hmax.
        apply list_eq. intros j.
        destruct (Nat.lt_ge_cases j 12) as [Hj|Hj].
        -- rewrite (Hmax j Hj). symmetry.
           unfold last_combination.
           rewrite list_lookup_fmap, lookup_seq_lt by lia. reflexivity.
        -- rewrite !lookup_ge_None_2; [reflexivity|cbn; lia|lia].
    + intros ->. reflexivity.
  - intros s'. unfold nextCombination.
    destruct (find_pos s 12) as [i|]; [destruct (s !! i); discriminate|].
    intros [= <-]. reflexivity.
Qed.

(** ** Order *)

Lemma lex_lt_irrefl (a : list Z) : ~ lex_lt a a.
Proof.
  induction a as [|x a IH]; cbn; [tauto|]. intros [H|[_ H]]; [lia|tauto].
Qed.

Lemma lex_lt_trans (a : list Z) :
  forall b c : list Z, lex_lt a b -> lex_lt b c -> lex_lt a c.
Proof.
  induction a as [|x a IH]; intros [|y b] [|z c]; cbn; try tauto.
  intros [H1|[-> H1]] [H2|[-> H2]]; try (left; lia).
  right. split; [reflexivity|]. eapply IH; eauto.
Qed.

Lemma successors_sorted (l : list (list Z)) :
  forall a : list Z,
    valid a -> successors (a :: l) ->
    Forall valid (a :: l) /\ StronglySorted lex_lt (a :: l).
Proof.
  induction l as [|b l IH]; intros a Ha Hs.
  - split; [constructor; [exact Ha|constructor]|].
    constructor; constructor.
  - destruct Hs as [Hstep Hs].
    destruct (nextCombination_step a b Ha Hstep) as (Hb & Hab & _).
    destruct (IH b Hb Hs) as [Hvalid Hsorted].
    split; [constructor; assumption|].
    constructor; [exact Hsorted|].
    constructor; [exact Hab|].
    apply StronglySorted_inv in Hsorted as [_ Hall].
    eapply Forall_impl; [exact Hall|].
    intros c Hbc. cbn beta in Hbc. eapply lex_lt_trans; eauto.
Qed.

Lemma sorted_NoDup (l : list (list Z)) : StronglySorted lex_lt l -> NoDup l.
Proof.
  induction 1 as [|a l Hs IH Hall]; constructor; [|exact IH].
  intros Hin. rewrite Forall_forall in Hall.
  exact (lex_lt_irrefl a (Hall a Hin)).
Qed.

(** ** A measure that grows along the enumeration *)





Lemma resumable_start (file : checkpoint_file) (st : SeedPermutationRecovery) :
  currentIndices st = None ->
  resumable file ->
  valid (default first_combination (currentIndices (loadCheckpoint file st))).
Proof.
  intros Hnone Hres.
  assert (Hfirst : valid first_combination) by (apply validb_sound; reflexivity).
  destruct file as [| |c]; cbn; rewrite ?Hnone; try exact Hfirst.
  cbn in Hres. destruct (ck_indices c); cbn; rewrite ?Hnone; assumption.
Qed.

Lemma items_app (l1 l2 : list slot) : items (l1 ++ l2) = items l1 ++ items l2.
Proof.
  induction l1 as [|[| |a] l1 IH]; cbn; rewrite ?IH; reflexivity.
Qed.

Lemma items_Item (l : list foundAddress) : items (map Item l) = l.
Proof. induction l as [|a l IH]; cbn; rewrite ?IH; reflexivity. Qed.

Lemma matches_spec (db : HashOnlyBTCDB) (addresses : list string) :
  forall (i : nat) (e : foundAddress),
    In e (matches db addresses i) <->
    exists k : nat,
      index e = (i + k)%nat /\
      addresses !! k = Some (address e) /\
      hasAddress db (address e) = Some true /\
      path e = path_of (index e).
Proof.
  induction addresses as [|a rest IH]; intros i e.
  - cbn. split; [tauto|]. intros (k & _ & Hk & _). discriminate.
  - assert (Hrest : In e (matches db rest (S i)) <->
              exists k : nat, (1 <= k)%nat /\ index e = (i + k)%nat /\
                (a :: rest) !! k = Some (address e) /\
                hasAddress db (address e) = Some true /\
                path e = path_of (index e)).
    { rewrite IH. split.
      - intros (k & Hi & Hk & Hh & Hp). exists (S k).
        repeat split; try assumption; lia.
      - intros (k & Hpos & Hi & Hk & Hh & Hp).
        destruct k as [|k]; [lia|]. exists k.
        repeat split; try assumption; lia. }
    cbn [matches].
    destruct (hasAddress db a) as [[|]|] eqn:Ha.
    + cbn [In]. rewrite Hrest. split.
      * intros [<-|(k & _ & H)]; [|exists k; exact H].
        exists 0%nat. cbn. rewrite Nat.add_0_r. auto.
      * intros (k & Hi & Hk & Hh & Hp).
        destruct k as [|k].
        -- left. cbn in Hk. injection Hk as Hk. rewrite Nat.add_0_r in Hi.
           destruct e as [ei ea ep]. cbn in *. subst. reflexivity.
        -- right. exists (S k). repeat split; try assumption; lia.
    + rewrite Hrest. split.
      * intros (k & _ & H). exists k. exact H.
      * intros (k & Hi & Hk & Hh & Hp).
        destruct k as [|k]; [|exists (S k); repeat split; try assumption; lia].
        cbn in Hk. injection Hk as Hk. congruence.
    + rewrite Hrest. split.
      * intros (k & _ & H). exists k. exact H.
      * intros (k & Hi & Hk & Hh & Hp).
        destruct k as [|k]; [|exists (S k); repeat split; try assumption; lia].
        cbn in Hk. injection Hk as Hk. congruence.
Qed.

Lemma matches_sorted (db : HashOnlyBTCDB) (addresses : list string) :
  forall i : nat,
    StronglySorted (fun e1 e2 => (index e1 < index e2)%nat)
                   (matches db addresses i) /\
    Forall (fun e => (i <= index e)%nat) (matches db addresses i).
Proof.
  induction addresses as [|a rest IH]; intros i; [split; constructor|].
  cbn [matches]. destruct (IH (S i)) as [Hs Hall].
  assert (Hall' : Forall (fun e => (i <= index e)%nat) (matches db rest (S i))).
  { eapply Forall_impl; [exact Hall|]. cbn. intros; lia. }
  destruct (hasAddress db a) as [[|]|]; try (split; assumption).
  split.
  - constructor; [exact Hs|].
    eapply Forall_impl; [exact Hall|]. cbn. intros; lia.
  - constructor; [cbn; lia|exact Hall'].
Qed.

Section Runs.

Variable Account : Type.
Variable validateMnemonic : string -> outcome bool.
Variable deriveAccount : string -> outcome Account.
Variable deriveAddress : Account -> nat -> outcome string.
Variables (stamp now elapsed : string).

Local Abbreviation iteration' :=
  (iteration Account validateMnemonic deriveAccount deriveAddress stamp).
Local Abbreviation do_while' :=
  (do_while Account validateMnemonic deriveAccount deriveAddress stamp).
Local Abbreviation main' :=
  (main Account validateMnemonic deriveAccount deriveAddress stamp now elapsed).

Lemma do_while_successors (sigint : Z -> bool) (fuel : nat) :
  forall (st : SeedPermutationRecovery) (indices : list Z) (attempts : Z)
         (r : run),
    do_while' fuel sigint st indices attempts = Some r ->
    exists rest : list (list Z),
      tested r = indices :: rest /\ successors (indices :: rest).
Proof.
  induction fuel as [|fuel IH]; intros st indices attempts r; [discriminate|].
  cbn [do_while].
  destruct (_ && _); [intros [= <-]; exists []; split; constructor|].
  destruct (nextCombination indices) as [[[|] indices']|] eqn:Hnext;
    try discriminate.
  - destruct (do_while' fuel sigint _ indices' _) as [r'|] eqn:Hrun;
      [|discriminate].
    intros [= <-]. cbn.
    destruct (IH _ _ _ _ Hrun) as (rest & Hrest & Hs).
    exists (tested r'). split; [reflexivity|].
    rewrite Hrest. split; [exact Hnext|exact Hs].
  - intros [= <-]. exists []. split; constructor.
Qed.

Lemma do_while_order (fuel : nat) (sigint : Z -> bool)
    (st : SeedPermutationRecovery) (indices : list Z) (attempts : Z) (r : run) :
  valid indices ->
  do_while' fuel sigint st indices attempts = Some r ->
  head (tested r) = Some indices /\
  successors (tested r) /\
  Forall valid (tested r) /\
  StronglySorted lex_lt (tested r) /\
  NoDup (tested r).
Proof.
  intros Hvalid Hrun.
  destruct (do_while_successors _ _ _ _ _ _ Hrun) as (rest & Hrest & Hs).
  rewrite Hrest.
  destruct (successors_sorted rest indices Hvalid Hs) as [Hv Hsorted].
  split; [reflexivity|]. split; [exact Hs|]. split; [exact Hv|].
  split; [exact Hsorted|]. apply sorted_NoDup, Hsorted.
Qed.

(** ** Counters *)

Lemma iteration_effect (st : SeedPermutationRecovery) (indices : list Z) :
  let st' := iteration' st indices in
  database st' = database st /\
  wordlist st' = wordlist st /\
  checkedCombinations st' = checkedCombinations st + 1 /\
  sessionCombinations st' = sessionCombinations st + 1 /\
  currentIndices st' = Some indices /\
  (foundSeeds st' = foundSeeds st \/
   exists seed : foundSeed, foundSeeds st' = foundSeeds st ++ [seed]).
Proof.
  unfold iteration.
  destruct (checkSeedPhrase _ _ _ _ (database st) _) as [slots [|]]; cbn;
    repeat split; eauto.
Qed.

Lemma do_while_counters (sigint : Z -> bool) (fuel : nat) :
  forall (st : SeedPermutationRecovery) (indices : list Z) (attempts : Z)
         (r : run),
    do_while' fuel sigint st indices attempts = Some r ->
    database (final r) = database st /\
    wordlist (final r) = wordlist st /\
    checkedCombinations (final r) =
      checkedCombinations st + Z.of_nat (length (tested r)) /\
    sessionCombinations (final r) =
      sessionCombinations st + Z.of_nat (length (tested r)) /\
    currentIndices (final r) = last (tested r) /\
    (exists new : list foundSeed,
        foundSeeds (final r) = foundSeeds st ++ new /\
        (length new <= length (tested r))%nat).
Proof.
  induction fuel as [|fuel IH]; intros st indices attempts r; [discriminate|].
  cbn [do_while].
  destruct (iteration_effect st indices) as (Hdb & Hwl & Hc & Hs & Hcur & Hfound).
  assert (Hone : forall r0 : run,
    final r0 = iteration' st indices -> tested r0 = [indices] ->
    database (final r0) = database st /\
    wordlist (final r0) = wordlist st /\
    checkedCombinations (final r0) =
      checkedCombinations st + Z.of_nat (length (tested r0)) /\
    sessionCombinations (final r0) =
      sessionCombinations st + Z.of_nat (length (tested r0)) /\
    currentIndices (final r0) = last (tested r0) /\
    (exists new : list foundSeed,
        foundSeeds (final r0) = foundSeeds st ++ new /\
        (length new <= length (tested r0))%nat)).
  { intros r0 -> ->. cbn [length last].
    repeat split; try assumption; try lia.
    destruct Hfound as [Hf|[seed Hf]]; rewrite Hf.
    - exists []. rewrite app_nil_r. split; [reflexivity|cbn; lia].
    - exists [seed]. split; [reflexivity|cbn; lia]. }
  destruct (_ && _); [intros [= <-]; apply Hone; reflexivity|].
  destruct (nextCombination indices) as [[[|] indices']|] eqn:Hnext;
    try discriminate.
  - destruct (do_while' fuel sigint _ indices' _) as [r'|] eqn:Hrun;
      [|discriminate].
    intros [= <-]. cbn [final tested length].
    destruct (IH _ _ _ _ Hrun) as (Hdb' & Hwl' & Hc' & Hs' & Hcur' & new & Hnew & Hlen).
    destruct (do_while_successors _ _ _ _ _ _ Hrun) as (rest & Hrest & _).
    rewrite Hdb', Hwl', Hc', Hs', Hcur'.
    repeat split; try assumption; try lia.
    + rewrite Hrest. reflexivity.
    + rewrite Hnew.
      destruct Hfound as [Hf|[seed Hf]]; rewrite Hf.
      * exists new. split; [reflexivity|lia].
      * exists (seed :: new). rewrite <- app_assoc. split; [reflexivity|cbn; lia].
  - intros [= <-]. apply Hone; reflexivity.
Qed.

(** ** The end of a run *)



Lemma main_writing_true (fuel : nat) (sigint : Z -> bool)
    (db : HashOnlyBTCDB) (wl : list string) (file : checkpoint_file) :
  main_writing Account validateMnemonic deriveAccount deriveAddress stamp
    now elapsed true fuel sigint db wl file
  = main' fuel sigint db wl file.
Proof. reflexivity. Qed.


(** ** Runs end *)



(** ** The derivation *)

Lemma derive_loop_spec (account : Account) (n : nat) :
  forall (i : nat) (l : list string),
    derive_loop Account deriveAddress account i n = Ok l ->
    length l = n /\
    forall (k : nat) (a : string),
      l !! k = Some a -> deriveAddress account (i + k) = Ok a.
Proof.
  induction n as [|n IH]; intros i l; cbn [derive_loop].
  - intros [= <-]. split; [reflexivity|]. intros k a Hk. discriminate.
  - destruct (deriveAddress account i) as [a0|] eqn:Ha; [|discriminate].
    destruct (derive_loop Account deriveAddress account (S i) n) as [rest|] eqn:Hr;
      [|discriminate].
    intros [= <-]. destruct (IH _ _ Hr) as [Hlen Hk].
    split; [cbn; lia|].
    intros [|k] a; cbn.
    + intros [= <-]. rewrite Nat.add_0_r. exact Ha.
    + intros H. replace (i + S k)%nat with (S i + k)%nat by lia. apply Hk, H.
Qed.

(** X16: [generateAddresses] returns no address at all, or [count]
    addresses, the one of index [k] being the one derived at [k] from the
    account of a phrase that [validateMnemonic] accepts; an exception in
    the middle of the loop leaves no partial list. *)
Theorem generateAddresses_all_or_nothing (seed : string) (count : nat) :
  generateAddresses Account validateMnemonic deriveAccount deriveAddress
    seed count = [] \/
  exists account : Account,
    validateMnemonic seed = Ok true /\
    deriveAccount seed = Ok account /\
    length (generateAddresses Account validateMnemonic deriveAccount
              deriveAddress seed count) = count /\
    forall (k : nat) (a : string),
      generateAddresses Account validateMnemonic deriveAccount deriveAddress
        seed count !! k = Some a ->
      deriveAddress account k = Ok a.
Proof.
  unfold generateAddresses.
  destruct (validateMnemonic seed) as [[|]|]; try (left; reflexivity).
  destruct (deriveAccount seed) as [account|]; [|left; reflexivity].
  destruct (derive_loop Account deriveAddress account 0 count) as [l|] eqn:Hl;
    [|left; reflexivity].
  right. exists account. destruct (derive_loop_spec _ _ _ _ Hl) as [Hlen Hk].
  repeat split; assumption.
Qed.

(** X17: the objects in the array that [checkSeedPhrase] returns are
    exactly the derived addresses that the database holds, each with its
    position and path, in ascending position; the flag is [true] exactly
    when some derived address is in the database. *)
Theorem checkSeedPhrase_entries (db : HashOnlyBTCDB) (seed : string) :
  let addresses := generateAddresses Account validateMnemonic deriveAccount
                     deriveAddress seed 20 in
  let '(slots, found) := checkSeedPhrase Account validateMnemonic
                           deriveAccount deriveAddress db seed in
  (forall e : foundAddress,
      In e (items slots) <->
      addresses !! index e = Some (address e) /\
      hasAddress db (address e) = Some true /\
      path e = path_of (index e)) /\
  StronglySorted (fun e1 e2 => (index e1 < index e2)%nat) (items slots) /\
  (found = true <->
   exists a : string, In a addresses /\ hasAddress db a = Some true).
Proof.
  intros addresses.
  unfold checkSeedPhrase. fold addresses. rewrite check_loop_matches.
  rewrite items_app, items_Item. cbn [items replicate app].
  replace (items (replicate 12 Empty)) with (@nil foundAddress) by reflexivity.
  cbn [app].
  assert (Hin : forall e : foundAddress,
      In e (matches db addresses 0) <->
      addresses !! index e = Some (address e) /\
      hasAddress db (address e) = Some true /\
      path e = path_of (index e)).
  { intros e. rewrite matches_spec. split.
    - intros (k & Hi & H). cbn in Hi. subst k. exact H.
    - intros H. exists (index e). split; [reflexivity|exact H]. }
  split; [exact Hin|]. split; [apply matches_sorted|].
  cbn [orb]. split.
  - intros Hf. destruct (matches db addresses 0) as [|e l];
      [discriminate|].
    destruct (proj1 (Hin e) (or_introl eq_refl)) as (Hk & Hh & _).
    exists (address e). split; [|exact Hh].
    apply list_elem_of_In. eapply list_elem_of_lookup_2. exact Hk.
  - intros (a & Ha & Hh).
    apply list_elem_of_In, list_elem_of_lookup_1 in Ha as [k Hk].
    assert (He : In (mkFound k a (path_of k)) (matches db addresses 0)).
    { apply Hin. cbn. auto. }
    destruct (matches db addresses 0); [destruct He|reflexivity].
Qed.

(** ** Save, then load *)



(** ** One process *)

Lemma loadCheckpoint_keeps (file : checkpoint_file)
    (st : SeedPermutationRecovery) :
  database (loadCheckpoint file st) = database st /\
  wordlist (loadCheckpoint file st) = wordlist st /\
  sessionCombinations (loadCheckpoint file st) = sessionCombinations st.
Proof.
  destruct file as [| |c]; cbn; auto.
  destruct (ck_indices c); cbn; auto.
Qed.

(** The loop that a process runs, and what the process adds to it. *)
Lemma main_run (fuel : nat) (sigint : Z -> bool) (db : HashOnlyBTCDB)
    (wl : list string) (file file' : checkpoint_file) (r : run) :
  main' fuel sigint db wl file = Some (file', r) ->
  let st0 := loadCheckpoint file (new_recovery db wl) in
  exists (st1 : SeedPermutationRecovery) (r0 : run),
    do_while' fuel sigint st1
      (default first_combination (currentIndices st0)) 0 = Some r0 /\
    database st1 = db /\ wordlist st1 = wl /\
    checkedCombinations st1 = checkedCombinations st0 /\
    sessionCombinations st1 = 0 /\
    foundSeeds st1 = foundSeeds st0 /\
    tested r = tested r0 /\ reason r = reason r0 /\
    last_indices r = last_indices r0 /\
    database (final r) = database (final r0) /\
    wordlist (final r) = wordlist (final r0) /\
    checkedCombinations (final r) = checkedCombinations (final r0) /\
    sessionCombinations (final r) = sessionCombinations (final r0) /\
    foundSeeds (final r) = foundSeeds (final r0).
Proof.
  unfold main, startPermutationSearch.
  destruct (loadCheckpoint_keeps file (new_recovery db wl)) as (Hdb & Hwl & Hs).
  set (st0 := loadCheckpoint file (new_recovery db wl)) in *.
  cbn in Hdb, Hwl, Hs.
  assert (Hgen : forall (indices : list Z) (st1 : SeedPermutationRecovery),
    indices = default first_combination (currentIndices st0) ->
    database st1 = db -> wordlist st1 = wl ->
    checkedCombinations st1 = checkedCombinations st0 ->
    sessionCombinations st1 = 0 ->
    foundSeeds st1 = foundSeeds st0 ->
    match do_while' fuel sigint st1 indices 0 with
    | Some r1 =>
        match reason r1 with
        | Exhausted =>
            let st2 := set_currentIndices (final r1) (last_indices r1) in
            let '(file'0, st3) := saveCheckpoint now elapsed true file st2 in
            let st4 := log st3 (EvCompleted (checkedCombinations st3)
                                  (length (foundSeeds st3))) in
            Some (file'0, mkRun st4 (last_indices r1) Exhausted (tested r1))
        | Interrupted =>
            let '(file'0, st2) :=
              saveCheckpoint now elapsed true file (final r1) in
            Some (file'0, mkRun st2 (last_indices r1) Interrupted (tested r1))
        end
    | None => None
    end = Some (file', r) ->
    exists (st1' : SeedPermutationRecovery) (r0 : run),
      do_while' fuel sigint st1'
        (default first_combination (currentIndices st0)) 0 = Some r0 /\
      database st1' = db /\ wordlist st1' = wl /\
      checkedCombinations st1' = checkedCombinations st0 /\
      sessionCombinations st1' = 0 /\
      foundSeeds st1' = foundSeeds st0 /\
      tested r = tested r0 /\ reason r = reason r0 /\
      last_indices r = last_indices r0 /\
      database (final r) = database (final r0) /\
      wordlist (final r) = wordlist (final r0) /\
      checkedCombinations (final r) = checkedCombinations (final r0) /\
      sessionCombinations (final r) = sessionCombinations (final r0) /\
      foundSeeds (final r) = foundSeeds (final r0)).
  { intros indices st1 -> H1 H2 H3 H4 H5.
    destruct (do_while' fuel sigint st1 _ 0) as [r0|] eqn:Hrun; [|discriminate].
    destruct (reason r0) eqn:Hreason; cbn; intros [= <- <-];
      exists st1, r0; cbn; rewrite ?Hreason; repeat split; assumption. }
  destruct (currentIndices st0) as [saved|] eqn:Hcur; cbn beta iota;
    apply Hgen; cbn; auto.
Qed.

(** X12: in one process started without a checkpoint or from one with a
    valid state, each combination tested is the successor of the one
    before it; all of them are valid states, in strictly increasing
    lexicographic order, so none is tested twice. *)
Theorem main_tests_in_order (fuel : nat) (sigint : Z -> bool)
    (db : HashOnlyBTCDB) (wl : list string) (file file' : checkpoint_file)
    (r : run) :
  resumable file ->
  main' fuel sigint db wl file = Some (file', r) ->
  successors (tested r) /\
  Forall valid (tested r) /\
  StronglySorted lex_lt (tested r) /\
  NoDup (tested r).
Proof.
  intros Hres Hmain.
  destruct (main_run _ _ _ _ _ _ _ Hmain)
    as (st1 & r0 & Hrun & _ & _ & _ & _ & _ & Ht & _).
  rewrite Ht.
  apply (do_while_order _ _ _ _ _ _
           (resumable_start file (new_recovery db wl) eq_refl Hres) Hrun).
Qed.

Lemma do_while_length (sigint : Z -> bool) (fuel : nat) :
  forall (st : SeedPermutationRecovery) (indices : list Z) (attempts : Z)
         (r : run),
    do_while' fuel sigint st indices attempts = Some r ->
    (1 <= length (tested r) <= fuel)%nat.
Proof.
  induction fuel as [|fuel IH]; intros st indices attempts r; [discriminate|].
  cbn [do_while].
  destruct (_ && _); [intros [= <-]; cbn; lia|].
  destruct (nextCombination indices) as [[[|] indices']|]; try discriminate.
  - destruct (do_while' fuel sigint _ indices' _) as [r'|] eqn:Hrun;
      [|discriminate].
    intros [= <-]. cbn. specialize (IH _ _ _ _ Hrun). lia.
  - intros [= <-]. cbn. lia.
Qed.

(** X13: for a process whose restored total is not negative and, with the
    bound on its iterations added, does not pass 2^53 (where the counters,
    which are doubles, count exactly): when it ends, its session counter
    is the number of combinations it tested, its total is the total it
    started from plus that number and is at most 2^53, the found records
    it started from are kept in front of the new ones, at most one new
    record per combination, and the database and word list are those it
    was given. *)
Theorem main_counts (fuel : nat) (sigint : Z -> bool)
    (db : HashOnlyBTCDB) (wl : list string) (file file' : checkpoint_file)
    (r : run) :
  0 <= checkedCombinations (loadCheckpoint file (new_recovery db wl)) ->
  checkedCombinations (loadCheckpoint file (new_recovery db wl))
    + Z.of_nat fuel <= 2 ^ 53 ->
  main' fuel sigint db wl file = Some (file', r) ->
  let st0 := loadCheckpoint file (new_recovery db wl) in
  (1 <= length (tested r) <= fuel)%nat /\
  database (final r) = db /\
  wordlist (final r) = wl /\
  sessionCombinations (final r) = Z.of_nat (length (tested r)) /\
  checkedCombinations (final r) =
    checkedCombinations st0 + Z.of_nat (length (tested r)) /\
  checkedCombinations (final r) <= 2 ^ 53 /\
  (exists new : list foundSeed,
      foundSeeds (final r) = foundSeeds st0 ++ new /\
      (length new <= length (tested r))%nat).
Proof.
  intros Hnonneg Hbound Hmain st0.
  destruct (main_run _ _ _ _ _ _ _ Hmain)
    as (st1 & r0 & Hrun & Hdb & Hwl & Hc & Hs & Hf & Ht & _ & _
        & Hdb' & Hwl' & Hc' & Hs' & Hf').
  destruct (do_while_counters _ _ _ _ _ _ Hrun)
    as (Kdb & Kwl & Kc & Ks & _ & new & Knew & Klen).
  pose proof (do_while_length _ _ _ _ _ _ Hrun) as Hlen.
  rewrite Hdb', Hwl', Hc', Hs', Hf', Ht, Kdb, Kwl, Kc, Ks, Knew.
  fold st0 in Hc, Hf, Hnonneg, Hbound. rewrite Hdb, Hwl, Hc, Hs, Hf.
  repeat split; try lia. exists new. split; [reflexivity|exact Klen].
Qed.


End Runs.

(* ===================================================================== *)
(** * Properties of the start-up code                                     *)
(* ===================================================================== *)

Lemma drop_whitespace_incl (l : list ascii) (c : ascii) :
  In c (drop_whitespace l) -> In c l.
Proof.
  induction l as [|x l IH]; [tauto|]. cbn [drop_whitespace].
  destruct (is_whitespace x); [intros H; right; apply IH, H|tauto].
Qed.

Lemma drop_whitespace_head (l : list ascii) (c : ascii) :
  head (drop_whitespace l) = Some c -> is_whitespace c = false.
Proof.
  induction l as [|x l IH]; [discriminate|]. cbn [drop_whitespace].
  destruct (is_whitespace x) eqn:Hx; [exact IH|].
  intros [= <-]. exact Hx.
Qed.

Lemma drop_whitespace_snoc (l : list ascii) (y : ascii) :
  is_whitespace y = false ->
  drop_whitespace (l ++ [y]) = drop_whitespace l ++ [y].
Proof.
  intros Hy. induction l as [|x l IH]; cbn [drop_whitespace app].
  - rewrite Hy. reflexivity.
  - destruct (is_whitespace x); [exact IH|reflexivity].
Qed.

Lemma last_rev (l : list ascii) : last (rev l) = head l.
Proof.
  destruct l as [|x l]; [reflexivity|]. cbn [rev]. apply last_snoc.
Qed.

(** What [trim] leaves: characters of the word, none of them white at
    either end. *)
Lemma trim_spec (w : string) :
  let t := list_ascii_of_string (trim w) in
  (forall c : ascii, In c t -> In c (list_ascii_of_string w)) /\
  (forall c : ascii, head t = Some c -> is_whitespace c = false) /\
  (forall c : ascii, last t = Some c -> is_whitespace c = false).
Proof.
  unfold trim. rewrite list_ascii_of_string_of_list_ascii.
  set (Y := drop_whitespace (list_ascii_of_string w)).
  split; [|split].
  - intros c Hc. apply in_rev, drop_whitespace_incl, in_rev in Hc.
    apply drop_whitespace_incl, Hc.
  - intros c. destruct Y as [|y Y'] eqn:HY; [discriminate|].
    assert (Hy : is_whitespace y = false).
    { apply (drop_whitespace_head (list_ascii_of_string w)).
      fold Y. rewrite HY. reflexivity. }
    cbn [rev]. rewrite drop_whitespace_snoc by exact Hy.
    rewrite rev_app_distr. cbn. intros [= <-]. exact Hy.
  - intros c. rewrite last_rev. apply drop_whitespace_head.
Qed.

Lemma split_no_sep (sep : ascii) (content : string) :
  Forall (fun w => ~ In sep (list_ascii_of_string w)) (split sep content).
Proof.
  induction content as [|c rest IH]; cbn [split].
  - constructor; [cbn; tauto|constructor].
  - destruct (Ascii.eqb_spec c sep) as [->|Hne].
    + constructor; [cbn; tauto|exact IH].
    + destruct (split sep rest) as [|w ws].
      * constructor; [|constructor]. cbn. intros [H|[]]. congruence.
      * apply Forall_cons in IH as [Hw Hws].
        constructor; [|exact Hws]. cbn. intros [H|H]; [congruence|tauto].
Qed.

(** X19: every word that [loadWordlist] keeps is non-empty, has no line
    break in it and no white space at either end; there are at most as
    many words as lines. *)
Theorem loadWordlist_words (content : string) (wl : list string) :
  loadWordlist (Some content) = Some wl ->
  (length wl <= length (split newline content))%nat /\
  forall w : string, In w wl ->
    w <> EmptyString /\
    ~ In newline (list_ascii_of_string w) /\
    (forall c : ascii, head (list_ascii_of_string w) = Some c ->
                       is_whitespace c = false) /\
    (forall c : ascii, last (list_ascii_of_string w) = Some c ->
                       is_whitespace c = false).
Proof.
  intros [= <-]. split.
  - etransitivity; [apply List.filter_length_le|]. rewrite length_map. lia.
  - intros w Hw. apply List.filter_In in Hw as [Hw Hne].
    apply in_map_iff in Hw as (line & <- & Hline).
    destruct (trim_spec line) as (Hincl & Hhead & Hlast).
    split; [intros He; rewrite He in Hne; discriminate|].
    split; [|split; assumption].
    intros Hin. apply Hincl in Hin.
    pose proof (split_no_sep newline content) as Hall.
    rewrite Forall_forall in Hall.
    apply (Hall line); [apply list_elem_of_In, Hline|exact Hin].
Qed.

(** ** [generateCombination] *)

Lemma string_app_assoc (a b c : string) :
  ((a ++ b) ++ c = a ++ (b ++ c))%string.
Proof. induction a as [|x a IH]; cbn; [reflexivity|rewrite IH; reflexivity]. Qed.

Lemma string_app_nil_r (a : string) : (a ++ "" = a)%string.
Proof. induction a as [|x a IH]; cbn; [reflexivity|rewrite IH; reflexivity]. Qed.

Lemma join_space_tail (ws : list string) :
  forall w : string, join_space (w :: ws) = (w ++ tail_text ws)%string.
Proof.
  unfold join_space.
  induction ws as [|x ws IH]; intros w; cbn [fold_left tail_text].
  - symmetry. apply string_app_nil_r.
  - rewrite IH. rewrite string_app_assoc. reflexivity.
Qed.

Lemma split_at_space (w : string) :
  forall (w' r r' : string),
    space_free w -> space_free w' ->
    (w ++ String space r = w' ++ String space r')%string ->
    w = w' /\ r = r'.
Proof.
  induction w as [|c w IH]; intros [|c' w'] r r' Hw Hw'; cbn.
  - intros [= ->]. auto.
  - intros [= <- _]. exfalso. apply Hw'. left. reflexivity.
  - intros [= -> _]. exfalso. apply Hw. left. reflexivity.
  - intros [= <- Hrest].
    destruct (IH w' r r') as [-> ->]; [| |exact Hrest|auto].
    + intros H. apply Hw. right. exact H.
    + intros H. apply Hw'. right. exact H.
Qed.

Lemma join_space_inj (ws : list string) :
  forall (ws' : list string) (w w' : string),
    length ws = length ws' ->
    Forall space_free (w :: ws) -> Forall space_free (w' :: ws') ->
    (w ++ tail_text ws = w' ++ tail_text ws')%string ->
    w = w' /\ ws = ws'.
Proof.
  induction ws as [|x ws IH]; intros [|x' ws'] w w' Hlen Hall Hall';
    try discriminate; cbn [tail_text].
  - rewrite !string_app_nil_r. auto.
  - injection Hlen as Hlen.
    apply Forall_cons in Hall as [Hw Hall].
    apply Forall_cons in Hall' as [Hw' Hall'].
    intros Heq. apply split_at_space in Heq as [-> Heq]; try assumption.
    destruct (IH ws' x x' Hlen Hall Hall' Heq) as [-> ->]. auto.
Qed.

Lemma word_at_in_range (wl : list string) (s : list Z) (j : nat) (a : Z) :
  s !! j = Some a -> 0 <= a < Z.of_nat (length wl) ->
  wl !! Z.to_nat a = Some (word_at wl s j).
Proof.
  intros Hj Ha. unfold word_at. rewrite Hj.
  destruct (Z.leb_spec 0 a) as [_|]; [|lia].
  destruct (lookup_lt_is_Some_2 wl (Z.to_nat a) ltac:(lia)) as [w ->].
  reflexivity.
Qed.

(** X21: with a word list of at least 2048 distinct words without
    spaces, two valid states that give the same seed phrase are the same
    state. *)
Theorem generateCombination_injective (wl : list string) (s t : list Z) :
  NoDup wl -> Forall space_free wl -> (2048 <= length wl)%nat ->
  valid s -> valid t ->
  generateCombination wl s = generateCombination wl t ->
  s = t.
Proof.
  intros Hnd Hsf Hlen (Hls & _ & Hrs) (Hlt & _ & Hrt) Heq.
  assert (Hin : forall (u : list Z) (j : nat),
            length u = 12%nat ->
            (forall (i : nat) (a : Z), u !! i = Some a ->
                                       0 <= a <= 2036 + Z.of_nat i) ->
            (j < 12)%nat ->
            exists a : Z, u !! j = Some a /\ 0 <= a /\
                          wl !! Z.to_nat a = Some (word_at wl u j)).
  { intros u j Hl Hr Hj.
    destruct (lookup_lt_is_Some_2 u j ltac:(lia)) as [a Ha].
    exists a. pose proof (Hr j a Ha).
    split; [exact Ha|]. split; [lia|].
    apply (word_at_in_range wl u j a Ha). lia. }
  assert (Hfree : forall (u : list Z),
            length u = 12%nat ->
            (forall (i : nat) (a : Z), u !! i = Some a ->
                                       0 <= a <= 2036 + Z.of_nat i) ->
            Forall space_free (map (word_at wl u) (seq 0 12))).
  { intros u Hl Hr. apply Forall_forall. intros w Hw.
    apply list_elem_of_In, in_map_iff in Hw as (j & <- & Hj).
    apply in_seq in Hj.
    destruct (Hin u j Hl Hr ltac:(lia)) as (a & _ & _ & Hw).
    rewrite Forall_forall in Hsf. apply Hsf.
    eapply list_elem_of_lookup_2. exact Hw. }
  unfold generateCombination in Heq.
  pose proof (Hfree s Hls Hrs) as Fs. pose proof (Hfree t Hlt Hrt) as Ft.
  change (seq 0 12) with (0%nat :: seq 1 11) in Heq, Fs, Ft.
  cbn [map] in Heq, Fs, Ft.
  rewrite !join_space_tail in Heq.
  apply join_space_inj in Heq as [H0 Hrest];
    [|rewrite !length_map; reflexivity|exact Fs|exact Ft].
  assert (Hword : forall j : nat, (j < 12)%nat ->
                    word_at wl s j = word_at wl t j).
  { intros [|j] Hj; [exact H0|].
    assert (Hl : map (word_at wl s) (seq 1 11) !! j =
                 map (word_at wl t) (seq 1 11) !! j) by (rewrite Hrest; reflexivity).
    rewrite !list_lookup_fmap, !lookup_seq_lt in Hl by lia.
    cbn in Hl. congruence. }
  apply list_eq. intros j.
  destruct (Nat.lt_ge_cases j 12) as [Hj|Hj].
  - destruct (Hin s j Hls Hrs Hj) as (a & Ha & Ha0 & Hwa).
    destruct (Hin t j Hlt Hrt Hj) as (b & Hb & Hb0 & Hwb).
    rewrite Ha, Hb. f_equal.
    rewrite (Hword j Hj) in Hwa.
    pose proof (NoDup_lookup wl _ _ _ Hnd Hwa Hwb). lia.
  - rewrite !lookup_ge_None_2 by lia. reflexivity.
Qed.

(** ** [getElapsedTime], [getSessionTime] *)

(** X22: for a non-negative number of milliseconds, the text shows whole
    seconds below one minute, minutes and seconds below one hour, hours,
    minutes and seconds from there on; minutes and seconds are below 60
    and the parts add up to the whole seconds. *)
Theorem elapsed_text_parts (elapsed : Z) :
  0 <= elapsed ->
  let s := elapsed / 1000 in
  let h := s / 3600 in
  let m := (s / 60) mod 60 in
  let sec := s mod 60 in
  s = h * 3600 + m * 60 + sec /\
  0 <= m < 60 /\ 0 <= sec < 60 /\
  elapsed_text elapsed =
    if elapsed <? 60000 then (number_text s ++ "s")%string
    else if elapsed <? 3600000
         then (number_text m ++ "m " ++ number_text sec ++ "s")%string
         else (number_text h ++ "h " ++ number_text m ++ "m "
               ++ number_text sec ++ "s")%string.
Proof.
  intros H0 s h m sec.
  assert (Hs : 0 <= s) by (apply Z.div_pos; lia).
  assert (Hmin : 0 <= s / 60) by (apply Z.div_pos; lia).
  assert (Hh : h = s / 60 / 60).
  { subst h. rewrite Z.div_div by lia. reflexivity. }
  pose proof (Z.div_mod s 60 ltac:(lia)) as D1.
  pose proof (Z.div_mod (s / 60) 60 ltac:(lia)) as D2.
  pose proof (Z.mod_pos_bound s 60 ltac:(lia)) as B1.
  pose proof (Z.mod_pos_bound (s / 60) 60 ltac:(lia)) as B2.
  split; [subst m sec; rewrite Hh; lia|].
  split; [exact B2|]. split; [exact B1|].
  unfold elapsed_text. fold s.
  rewrite !Z.rem_mod_nonneg by lia. fold m sec. rewrite <- Hh.
  pose proof (Z.div_mod elapsed 1000 ltac:(lia)) as D0.
  pose proof (Z.mod_pos_bound elapsed 1000 ltac:(lia)) as B0. fold s in D0.
  assert (Hhz : 0 <= h) by (subst h; apply Z.div_pos; lia).
  destruct (Z.ltb_spec elapsed 60000) as [E1|E1].
  - assert (s / 60 = 0) by (apply Z.div_small; lia).
    assert (h = 0) by (rewrite Hh, H; reflexivity).
    rewrite H1, H. reflexivity.
  - assert (1 <= s / 60) by (apply Z.div_le_lower_bound; lia).
    destruct (Z.ltb_spec elapsed 3600000) as [E2|E2].
    + assert (h = 0) by (subst h; apply Z.div_small; lia).
      rewrite H1. destruct (Z.ltb_spec 0 (s / 60)); [reflexivity|lia].
    + assert (1 <= h) by (subst h; apply Z.div_le_lower_bound; lia).
      destruct (Z.ltb_spec 0 h); [reflexivity|lia].
Qed.

(** X20: when [initialize] completes, the database is loaded with at
    least one hash, all of them 64-bit values, the word list is the one
    read by [loadWordlist] and has at least twelve words, the session
    counter is zero, and the rest of the object is what [loadCheckpoint]
    makes of a new one. *)
Theorem initialize_started (dbfile : option (list byte))
    (wordfile : option string) (ckfile : checkpoint_file)
    (st : SeedPermutationRecovery) :
  initialize dbfile wordfile ckfile = Started st ->
  (exists hs : list Z,
      hashes (database st) = Some hs /\ hs <> [] /\ Forall u64 hs) /\
  loadWordlist wordfile = Some (wordlist st) /\
  (12 <= length (wordlist st))%nat /\
  sessionCombinations st = 0 /\
  st = loadCheckpoint ckfile (new_recovery (database st) (wordlist st)).
Proof.
  unfold initialize.
  destruct dbfile as [buffer|]; [|discriminate].
  pose proof (loadDatabase_cases buffer new_db) as Hc.
  destruct (loadDatabase (Some buffer) new_db) as [[ok db] out].
  destruct ok; [|discriminate]. cbn [negb].
  destruct (loadWordlist wordfile) as [wl|]; [|discriminate].
  destruct (Nat.ltb_spec (length wl) 12) as [|Hlen]; [discriminate|].
  intros [= <-].
  destruct (loadCheckpoint_keeps ckfile (new_recovery db wl)) as (Hdb & Hwl & Hs).
  cbn in Hdb, Hwl, Hs. rewrite Hdb, Hwl, Hs.
  destruct Hc as [[Hf _]|[[Hf _]|[_ (count & hs & _ & -> & Hhs & _ & Hne & _)]]];
    try discriminate.
  split.
  - exists hs. split; [reflexivity|]. split.
    + intros ->. cbn in Hne. lia.
    + rewrite Hhs. apply read_hashes_u64.
  - repeat split; try reflexivity. exact Hlen.
Qed.

(* ===================================================================== *)
(** * The properties above on examples                                    *)
(* ===================================================================== *)

Lemma binarySearch_any_array_witness :
  binarySearch unsorted_hashes 10 = Some true /\ In 10 unsorted_hashes.
Proof.
  assert (H : binarySearch unsorted_hashes 10 = Some true) by reflexivity.
  split; [exact H|].
  exact (proj1 (proj2 (binarySearch_any_array unsorted_hashes 10)) H).
Defined.

Lemma xxhash64_round_rotate_witness :
  u64 0x9e3779b185ebca87 /\
  xxhash64_round 0x9e3779b185ebca87 (charCode "1") =
    (rotl13 (Z.lxor 0x9e3779b185ebca87 (charCode "1")) * 0xc2b2ae3d27d4eb4f)
    mod 2 ^ 64.
Proof.
  assert (H : u64 0x9e3779b185ebca87) by (unfold u64; lia).
  split; [exact H|].
  exact (xxhash64_round_rotate 0x9e3779b185ebca87 "1" H).
Defined.

Lemma verifyOrdering_exact_witness :
  (length sample_hashes <= 1000)%nat /\
  (verifyOrdering sample_hashes = true <-> ascending sample_hashes).
Proof.
  assert (H : (length sample_hashes <= 1000)%nat) by (cbn; lia).
  split; [exact H|].
  exact (proj2 (verifyOrdering_exact sample_hashes) H).
Defined.

Lemma loadDatabase_failure_keeps_no_index_witness :
  fst (fst (loadDatabase (Some wrong_magic_file) new_db)) = false /\
  forall a : string,
    hasAddress (snd (fst (loadDatabase (Some wrong_magic_file) new_db))) a
    = Some false.
Proof.
  assert (H : fst (fst (loadDatabase (Some wrong_magic_file) new_db)) = false)
    by (vm_compute; reflexivity).
  split; [exact H|].
  exact (proj2 (loadDatabase_failure_keeps_no_index (Some wrong_magic_file)
                  new_db H) eq_refl).
Defined.

Lemma loadDatabase_success_invariant_witness :
  loadDatabase (Some sample_file) new_db =
    (true, mkDB (Some sample_hashes) 4,
     [LogLoading; LogHashCount 4; LogLoaded 4; LogFirstHash 10; LogLastHash 40])
  /\
  exists (buffer : list byte) (hs : list Z),
    Some sample_file = Some buffer /\
    hashes (mkDB (Some sample_hashes) 4) = Some hs /\
    readBigUInt64LE buffer 8 = Some (hashCount (mkDB (Some sample_hashes) 4)) /\
    Z.of_nat (length hs) =
      Number_of_BigInt (hashCount (mkDB (Some sample_hashes) 4)) /\
    (1 <= length hs)%nat /\
    (24 + 8 * length hs <= length buffer)%nat /\
    Forall u64 hs.
Proof.
  assert (H : loadDatabase (Some sample_file) new_db =
    (true, mkDB (Some sample_hashes) 4,
     [LogLoading; LogHashCount 4; LogLoaded 4; LogFirstHash 10; LogLastHash 40]))
    by (vm_compute; reflexivity).
  split; [exact H|].
  exact (loadDatabase_success_invariant (Some sample_file) new_db _ _ H).
Defined.

Lemma loadDatabase_empty_database_witness :
  (24 <= length empty_file)%nat /\
  toString_ascii empty_file 0 8 = "BTCHASH1"%string /\
  readBigUInt64LE empty_file 8 = Some 0 /\
  readBigUInt64LE empty_file 16 = Some 8 /\
  loadDatabase (Some empty_file) new_db =
    (false, mkDB (Some []) 0,
     [LogLoading; LogHashCount 0; LogLoaded 0; ErrLoading]).
Proof.
  assert (H1 : (24 <= length empty_file)%nat) by (cbn; lia).
  assert (H2 : toString_ascii empty_file 0 8 = "BTCHASH1"%string)
    by (vm_compute; reflexivity).
  assert (H3 : readBigUInt64LE empty_file 8 = Some 0)
    by (vm_compute; reflexivity).
  assert (H4 : readBigUInt64LE empty_file 16 = Some 8)
    by (vm_compute; reflexivity).
  refine (conj H1 (conj H2 (conj H3 (conj H4 _)))).
  exact (loadDatabase_empty_database empty_file new_db H1 H2 H3 H4).
Defined.

Lemma lookup_after_load_witness :
  loadDatabase (Some sample_file) new_db =
    (true, mkDB (Some sample_hashes) 4,
     [LogLoading; LogHashCount 4; LogLoaded 4; LogFirstHash 10; LogLastHash 40])
  /\
  exists hs : list Z,
    hashes (mkDB (Some sample_hashes) 4) = Some hs /\
    forall a : string,
      (hasAddress (mkDB (Some sample_hashes) 4) a = Some true
       <-> In (xxhash64 a) hs) /\
      (hasAddress (mkDB (Some sample_hashes) 4) a = Some false
       <-> ~ In (xxhash64 a) hs).
Proof.
  assert (H : loadDatabase (Some sample_file) new_db =
    (true, mkDB (Some sample_hashes) 4,
     [LogLoading; LogHashCount 4; LogLoaded 4; LogFirstHash 10; LogLastHash 40]))
    by (vm_compute; reflexivity).
  split; [exact H|].
  refine (lookup_after_load (Some sample_file) new_db _ _ H _ _).
  - cbn. intros Hin.
    repeat (destruct Hin as [Hin|Hin]; [discriminate|]). exact Hin.
  - apply Z.leb_le. reflexivity.
Defined.

Lemma loadDatabase_db_file_witness :
  sample_hashes <> [] /\
  Forall u64 sample_hashes /\
  Z.of_nat (length sample_hashes) < 2 ^ 53 /\
  exists out : list msg,
    loadDatabase
      (Some (db_file magic_bytes (Z.of_nat (length sample_hashes)) 8
               sample_hashes ++ [x00; x01])) new_db
    = (true, mkDB (Some sample_hashes) (Z.of_nat (length sample_hashes)), out) /\
    (In WarnNotSorted out <-> verifyOrdering sample_hashes = false).
Proof.
  assert (H1 : sample_hashes <> []) by discriminate.
  assert (H2 : Forall u64 sample_hashes)
    by (repeat constructor; unfold u64; lia).
  assert (H3 : Z.of_nat (length sample_hashes) < 2 ^ 53)
    by (apply Z.ltb_lt; reflexivity).
  refine (conj H1 (conj H2 (conj H3 _))).
  exact (loadDatabase_db_file sample_hashes [x00; x01] new_db H1 H2 H3).
Defined.

Lemma nextCombination_exhausted_iff_witness :
  valid last_combination /\
  nextCombination last_combination = Some (false, last_combination).
Proof.
  assert (H : valid last_combination) by (apply validb_sound; reflexivity).
  split; [exact H|].
  exact (proj2 (proj1 (nextCombination_exhausted_iff last_combination H))
           eq_refl).
Defined.

Lemma resumable_ex_checkpoint : resumable (Json ex_checkpoint).
Proof. change (valid near_end). apply validb_sound. reflexivity. Qed.

Lemma main_tests_in_order_witness :
  resumable (Json ex_checkpoint) /\
  (exists x : checkpoint_file * run,
      ex_main at_first_yield (Json ex_checkpoint) = Some x) /\
  (forall (file' : checkpoint_file) (r : run),
      ex_main at_first_yield (Json ex_checkpoint) = Some (file', r) ->
      successors (tested r) /\ Forall valid (tested r) /\
      StronglySorted lex_lt (tested r) /\ NoDup (tested r)).
Proof.
  split; [exact resumable_ex_checkpoint|]. split.
  - vm_compute. eexists. reflexivity.
  - intros file' r Hrun.
    exact (main_tests_in_order unit (ex_validate ex_target) ex_account
             ex_address "2024-01-15T10-30-45-123Z" "2024-01-15T10:30:45.123Z"
             "0s" (Z.to_nat 7000) at_first_yield ex_db ex_words
             (Json ex_checkpoint) file' r resumable_ex_checkpoint Hrun).
Defined.

Lemma main_counts_witness :
  0 <= checkedCombinations
         (loadCheckpoint (Json ex_checkpoint) (new_recovery ex_db ex_words)) /\
  checkedCombinations
    (loadCheckpoint (Json ex_checkpoint) (new_recovery ex_db ex_words))
    + Z.of_nat (Z.to_nat 7000) <= 2 ^ 53 /\
  (exists x : checkpoint_file * run,
      ex_main at_first_yield (Json ex_checkpoint) = Some x) /\
  (forall (file' : checkpoint_file) (r : run),
      ex_main at_first_yield (Json ex_checkpoint) = Some (file', r) ->
      sessionCombinations (final r) = Z.of_nat (length (tested r)) /\
      checkedCombinations (final r) = 5000 + Z.of_nat (length (tested r))).
Proof.
  assert (H1 : 0 <= checkedCombinations
                      (loadCheckpoint (Json ex_checkpoint)
                         (new_recovery ex_db ex_words)))
    by (apply Z.leb_le; vm_compute; reflexivity).
  assert (H2 : checkedCombinations
                 (loadCheckpoint (Json ex_checkpoint)
                    (new_recovery ex_db ex_words))
               + Z.of_nat (Z.to_nat 7000) <= 2 ^ 53)
    by (apply Z.leb_le; vm_compute; reflexivity).
  refine (conj H1 (conj H2 (conj _ _))).
  - vm_compute. eexists. reflexivity.
  - intros file' r Hrun.
    pose proof (main_counts unit (ex_validate ex_target) ex_account
                  ex_address "2024-01-15T10-30-45-123Z"
                  "2024-01-15T10:30:45.123Z" "0s" (Z.to_nat 7000)
                  at_first_yield ex_db ex_words (Json ex_checkpoint) file' r
                  H1 H2 Hrun) as (_ & _ & _ & Hs & Hc & _).
    split; [exact Hs|exact Hc].
Defined.



Lemma loadWordlist_words_witness :
  loadWordlist (Some words_text) =
    Some ["abandon"; "ability"; "able"; "about"; "above"; "absent"; "absorb";
          "abstract"; "absurd"; "abuse"; "access"; "accident"]%string /\
  (length ["abandon"; "ability"; "able"; "about"; "above"; "absent"; "absorb";
           "abstract"; "absurd"; "abuse"; "access"; "accident"]%string
   <= length (split newline words_text))%nat.
Proof.
  assert (H : loadWordlist (Some words_text) =
    Some ["abandon"; "ability"; "able"; "about"; "above"; "absent"; "absorb";
          "abstract"; "absurd"; "abuse"; "access"; "accident"]%string)
    by (vm_compute; reflexivity).
  split; [exact H|].
  exact (proj1 (loadWordlist_words words_text _ H)).
Defined.

Lemma initialize_started_witness :
  (exists st : SeedPermutationRecovery,
      initialize (Some sample_file) (Some words_text) NoFile = Started st) /\
  (forall st : SeedPermutationRecovery,
      initialize (Some sample_file) (Some words_text) NoFile = Started st ->
      (12 <= length (wordlist st))%nat).
Proof.
  split.
  - vm_compute. eexists. reflexivity.
  - intros st H.
    exact (proj1 (proj2 (proj2
             (initialize_started (Some sample_file) (Some words_text) NoFile
                st H)))).
Defined.

Lemma distinctb_sound (l : list string) : distinctb l = true -> NoDup l.
Proof.
  induction l as [|x l IH]; intros H; [constructor|].
  cbn [distinctb] in H. apply andb_true_iff in H as [Hx Hl].
  constructor; [|apply IH, Hl].
  intros Hin. apply list_elem_of_In in Hin.
  apply negb_true_iff in Hx.
  assert (Hex : existsb (String.eqb x) l = true).
  { apply existsb_exists. exists x. split; [exact Hin|apply String.eqb_refl]. }
  congruence.
Qed.

Lemma space_freeb_sound (l : list string) :
  forallb space_freeb l = true -> Forall space_free l.
Proof.
  intros H. apply Forall_forall. intros w Hw.
  apply list_elem_of_In in Hw.
  rewrite forallb_forall in H. specialize (H w Hw).
  unfold space_freeb in H. apply negb_true_iff in H.
  intros Hin.
  assert (Hex : existsb (Ascii.eqb space) (list_ascii_of_string w) = true).
  { apply existsb_exists. exists space. split; [exact Hin|apply Ascii.eqb_refl]. }
  congruence.
Qed.

Lemma generateCombination_injective_witness :
  NoDup ex_words /\ Forall space_free ex_words /\
  (2048 <= length ex_words)%nat /\
  valid near_end /\
  forall t : list Z,
    valid t ->
    generateCombination ex_words near_end = generateCombination ex_words t ->
    near_end = t.
Proof.
  assert (H1 : NoDup ex_words) by (apply distinctb_sound; vm_compute; reflexivity).
  assert (H2 : Forall space_free ex_words)
    by (apply space_freeb_sound; vm_compute; reflexivity).
  assert (H3 : (2048 <= length ex_words)%nat)
    by (apply Nat.leb_le; vm_compute; reflexivity).
  assert (H4 : valid near_end) by (apply validb_sound; reflexivity).
  refine (conj H1 (conj H2 (conj H3 (conj H4 _)))).
  intros t Ht Heq.
  exact (generateCombination_injective ex_words near_end t H1 H2 H3 H4 Ht Heq).
Defined.

Lemma elapsed_text_parts_witness :
  0 <= 8130500 /\
  elapsed_text 8130500 = "2h 15m 30s"%string.
Proof.
  assert (H : 0 <= 8130500) by lia.
  split; [exact H|].
  exact (proj2 (proj2 (proj2 (elapsed_text_parts 8130500 H)))).
Defined.

Example getElapsedTime_examples :
  getElapsedTime 1045000 1000000 = "45s"%string /\
  getElapsedTime 1754000 1000000 = "12m 34s"%string /\
  getSessionTime 9130500 1000000 = "2h 15m 30s"%string.
Proof. repeat split. Qed.
